(** * World-heritage data pipeline: [scripts/data-pipeline/1_extract_wdpa.py]

    A shallow embedding of the extraction script and the properties of it
    that the specification states.

    Conventions of the embedding.
    - Python [str] is [string], and a character of a [string] is a code
      point below 256, not a byte of an encoding: the strings are the texts
      of the Latin-1 range. On these [lower], [isspace], [split], [strip]
      and [float] are those of Python, character by character; a text with
      a code point from 256 on is not a [string] and is outside this
      model.
    - A value that is [str] or [None] is an [option string].
    - An insertion-ordered [dict] is an association list without
      duplicate keys, in insertion order; a [csv.DictReader] row, which is
      only ever read by key, is a [gmap].
    - A raised exception is the [Raise] branch of [result].
    - A [float] is the decimal number its literal denotes; rounding to
      binary64 is outside this model. *)

From Stdlib Require Import Ascii String ZArith NArith Lia.
From stdpp Require Import base decidable option list strings gmap.

(** ** Exceptions *)

Inductive exn :=
  | FileNotFoundError
  | TypeError
  | ValueError
  | AttributeError
  | IndexError.

Inductive result (A : Type) :=
  | Ok (a : A)
  | Raise (e : exn).
Arguments Ok {A} a.
Arguments Raise {A} e.

#[global] Instance result_ret : MRet result := λ A a, Ok a.
#[global] Instance result_bind : MBind result := λ A B f r,
  match r with
  | Ok a => f a
  | Raise e => Raise e
  end.

(** ** Python strings *)

Module PyStr.

Definition code (c : ascii) : N := N_of_ascii c.

(** [c.lower()] on one character: the capitals [A]..[Z] and those of
    the Latin-1 range, 192..222 without the multiplication sign 215, move
    up by 32; nothing else moves. *)
Definition lower_char (c : ascii) : ascii :=
  if (((65 <=? code c) && (code c <=? 90))
      || ((192 <=? code c) && (code c <=? 222) && negb (code c =? 215)))%N
  then ascii_of_N (code c + 32) else c.

(** [s.lower()] *)
Fixpoint lower (s : string) : string :=
  match s with
  | EmptyString => EmptyString
  | String c s' => String (lower_char c) (lower s')
  end.

(** [s.startswith(p)] *)
Fixpoint startswith (p s : string) : bool :=
  match p, s with
  | EmptyString, _ => true
  | String _ _, EmptyString => false
  | String a p', String b s' => bool_decide (a = b) && startswith p' s'
  end.

(** [sub in s] *)
Fixpoint str_in (sub s : string) : bool :=
  startswith sub s ||
  match s with
  | EmptyString => false
  | String _ s' => str_in sub s'
  end.

(** [c.isspace()] on one character: tab, line feed, vertical tab, form
    feed, carriage return, the four separators 28..31, space, next line
    (133) and no-break space (160). *)
Definition isspace (c : ascii) : bool :=
  (((9 <=? code c) && (code c <=? 13))
   || ((28 <=? code c) && (code c <=? 32))
   || (code c =? 133) || (code c =? 160))%N.

(** [s.split()]: the maximal runs of non-space characters. [cur] is the
    word being read. *)
Fixpoint split_go (cur : string) (s : string) : list string :=
  match s with
  | EmptyString => if bool_decide (cur = EmptyString) then [] else [cur]
  | String c s' =>
      if isspace c
      then (if bool_decide (cur = EmptyString) then split_go EmptyString s'
            else cur :: split_go EmptyString s')
      else split_go (cur +:+ String c EmptyString) s'
  end.

Definition split (s : string) : list string := split_go EmptyString s.

(** [s.split()[0]] *)
Definition split_first (s : string) : result string :=
  match split s with
  | w :: _ => Ok w
  | [] => Raise IndexError
  end.

(** [s.split(sep)] for a one-character separator. *)
Fixpoint split_on_go (sep : ascii) (cur : string) (s : string) : list string :=
  match s with
  | EmptyString => [cur]
  | String c s' =>
      if bool_decide (c = sep)
      then cur :: split_on_go sep EmptyString s'
      else split_on_go sep (cur +:+ String c EmptyString) s'
  end.

Definition split_on (sep : ascii) (s : string) : list string :=
  split_on_go sep EmptyString s.

Fixpoint lstrip (s : string) : string :=
  match s with
  | EmptyString => EmptyString
  | String c s' => if isspace c then lstrip s' else s
  end.

(** [s.strip()] *)
Definition strip (s : string) : string :=
  String.rev (lstrip (String.rev (lstrip s))).

(** Truth value of a [str]. *)
Definition truthy (s : string) : bool := negb (bool_decide (s = EmptyString)).

End PyStr.

(** ** Python floats: [float(x)] *)

Module PyFloat.

Inductive pyfloat :=
  | FNan
  | FInf (neg : bool)
  | FDec (neg : bool) (mant : N) (exp10 : Z).

(** [0.0] *)
Definition zero : pyfloat := FDec false 0 0.

(** [float(n)] for a small [int]. *)
Definition of_int (n : Z) : pyfloat := FDec (n <? 0)%Z (Z.abs_N n) 0.

Definition is_digit (c : ascii) : bool :=
  ((48 <=? PyStr.code c) && (PyStr.code c <=? 57))%N.

Definition digit_val (c : ascii) : N := (PyStr.code c - 48)%N.

(** The white space that [float] strips: space, tab, line feed,
    vertical tab, form feed, carriage return, and next line (133) and
    no-break space (160), which it turns into spaces first. The
    separators 28..31 are not stripped. *)
Definition c_isspace (c : ascii) : bool :=
  (((9 <=? PyStr.code c) && (PyStr.code c <=? 13))
   || (PyStr.code c =? 32) || (PyStr.code c =? 133) || (PyStr.code c =? 160))%N.

Fixpoint lstrip (l : list ascii) : list ascii :=
  match l with
  | c :: l' => if c_isspace c then lstrip l' else l
  | [] => []
  end.

Definition strip (l : list ascii) : list ascii :=
  rev (lstrip (rev (lstrip l))).

Definition underscore : ascii := "_"%char.

(** An underscore is allowed only between two digits; the underscores
    are removed. [prev] is the character before [l], if any. *)
Fixpoint drop_underscores (prev : option ascii) (l : list ascii)
  : option (list ascii) :=
  match l with
  | [] => if bool_decide (prev = Some underscore) then None else Some []
  | c :: l' =>
      if bool_decide (c = underscore)
      then (if from_option is_digit false prev
            then drop_underscores (Some c) l' else None)
      else if bool_decide (prev = Some underscore) && negb (is_digit c)
           then None
           else cons c <$> drop_underscores (Some c) l'
  end.

(** A maximal run of digits: its value, its length and what follows. *)
Fixpoint digits (acc : N) (n : nat) (l : list ascii) : N * nat * list ascii :=
  match l with
  | c :: l' =>
      if is_digit c then digits (10 * acc + digit_val c)%N (S n) l'
      else (acc, n, l)
  | [] => (acc, n, [])
  end.

Definition sign (l : list ascii) : bool * list ascii :=
  match l with
  | "-"%char :: l' => (true, l')
  | "+"%char :: l' => (false, l')
  | _ => (false, l)
  end.

Definition lower_list (l : list ascii) : list ascii :=
  PyStr.lower_char <$> l.

(** [e] or [E], an optional sign and at least one digit; nothing else
    may follow. No exponent at all is the exponent [0]. *)
Definition exponent (l : list ascii) : option Z :=
  match l with
  | [] => Some 0%Z
  | c :: l' =>
      if bool_decide (PyStr.lower_char c = "e"%char)
      then let '(neg, l2) := sign l' in
           let '(e, n, rest) := digits 0 0 l2 in
           match n, rest with
           | S _, [] => Some (if neg then - Z.of_N e else Z.of_N e)%Z
           | _, _ => None
           end
      else None
  end.

(** The number after the sign: [inf], [infinity] or [nan] in any case,
    or digits with an optional point and an optional exponent, with at
    least one digit before the exponent. *)
Definition unsigned (neg : bool) (l : list ascii) : option pyfloat :=
  let low := String.string_of_list_ascii (lower_list l) in
  if bool_decide (low = "inf") || bool_decide (low = "infinity")
  then Some (FInf neg)
  else if bool_decide (low = "nan") then Some FNan
  else
    let '(ip, ni, l1) := digits 0 0 l in
    let '(m, nf, l2) :=
      match l1 with
      | "."%char :: l1' => digits ip 0 l1'
      | _ => (ip, 0, l1)
      end in
    match (ni + nf)%nat with
    | O => None
    | S _ =>
        e ← exponent l2;
        Some (if (m =? 0)%N then FDec neg 0 0
              else FDec neg m (e - Z.of_nat nf))
    end.

(** [float(s)] for a [str]; [None] stands for [ValueError]. *)
Definition parse (s : string) : option pyfloat :=
  match strip (String.list_ascii_of_string s) with
  | [] => None
  | l =>
      l' ← drop_underscores None l;
      let '(neg, l'') := sign l' in
      unsigned neg l''
  end.

Definition of_str (s : string) : result pyfloat :=
  match parse s with
  | Some f => Ok f
  | None => Raise ValueError
  end.

End PyFloat.

(** ** Insertion-ordered dictionaries *)

Section PyDict.
Context {K V : Type} `{EqDecision K}.

(** [d.get(k)] *)
Fixpoint dict_get (k : K) (d : list (K * V)) : option V :=
  match d with
  | [] => None
  | (k', v) :: d' => if decide (k = k') then Some v else dict_get k d'
  end.

(** [d[k] = v]: an existing key keeps its place, a new one goes last. *)
Fixpoint dict_set (k : K) (v : V) (d : list (K * V)) : list (K * V) :=
  match d with
  | [] => [(k, v)]
  | (k', v') :: d' =>
      if decide (k = k') then (k', v) :: d' else (k', v') :: dict_set k v d'
  end.

Definition dict_keys (d : list (K * V)) : list K := d.*1.
End PyDict.

(** [d[k].append(x)] on a [defaultdict(list)]. *)
Fixpoint dict_append {K A} `{EqDecision K} (k : K) (x : A)
    (d : list (K * list A)) : list (K * list A) :=
  match d with
  | [] => [(k, [x])]
  | (k', l) :: d' =>
      if decide (k = k') then (k', l ++ [x]) :: d'
      else (k', l) :: dict_append k x d'
  end.

(** ** The extractor *)

(** A row of [csv.DictReader]: a column that the header names but a short
    row does not fill holds [None]. *)
Abbreviation row := (gmap string (option string)).

Record Component := {
  wdpa_id : option string;
  wdpa_pid : option string;
  name : option string;
  name_orig : option string;
  designation : string;
  iucn_category : option string;
  status : option string;
  status_year : option string;
  area_km2 : PyFloat.pyfloat;
  iso_codes : list string;
  marine : bool;
}.

(** Site groups: [whs_sites], name to components in row order. *)
Abbreviation site_groups := (list (option string * list Component)).

(** The heritage marker of the designation filter. *)
Definition marker : string := "World Heritage".

(** [row.get(col, '')] *)
Definition get_str (r : row) (col : string) : option string :=
  default (Some EmptyString) (r !! col).

(** [row.get('DESIG_ENG', '')], as the operand of [in]: [None] is not
    iterable. *)
Definition desig_eng (r : row) : result string :=
  match get_str r "DESIG_ENG" with
  | Some s => Ok s
  | None => Raise TypeError
  end.

(** [float(row.get('REP_AREA', 0) or 0)]: a missing column gives the
    default [0], and [None], the empty string and [0] are all false, so
    [or] replaces them by [0]; only a non-empty string is parsed. *)
Definition area_of (r : row) : result PyFloat.pyfloat :=
  match r !! "REP_AREA" with
  | None => Ok (PyFloat.of_int 0)
  | Some None => Ok (PyFloat.of_int 0)
  | Some (Some s) =>
      if PyStr.truthy s then PyFloat.of_str s else Ok (PyFloat.of_int 0)
  end.

(** [[code.strip() for code in row.get('ISO3', '').split(';')]
     if row.get('ISO3') else []] *)
Definition iso_codes_of (r : row) : list string :=
  match r !! "ISO3" with
  | Some (Some s) =>
      if PyStr.truthy s then PyStr.strip <$> PyStr.split_on ";" s else []
  | _ => []
  end.

(** [row.get('MARINE', '0') != '0'] *)
Definition marine_of (r : row) : bool :=
  negb (bool_decide (default (Some "0") (r !! "MARINE") = Some "0")).

(** The [component] dictionary of a row that passed the filter; [desig]
    is its designation. *)
Definition make_component (r : row) (desig : string) : result Component :=
  area ← area_of r;
  mret {| wdpa_id := get_str r "WDPAID";
          wdpa_pid := get_str r "WDPA_PID";
          name := get_str r "NAME";
          name_orig := get_str r "ORIG_NAME";
          designation := desig;
          iucn_category := get_str r "IUCN_CAT";
          status := get_str r "STATUS";
          status_year := get_str r "STATUS_YR";
          area_km2 := area;
          iso_codes := iso_codes_of r;
          marine := marine_of r |}.

(** The body of [for row in reader] from the state [whs_sites]. *)
Fixpoint extract_rows (rows : list row) (whs_sites : site_groups)
    : result site_groups :=
  match rows with
  | [] => Ok whs_sites
  | r :: rows' =>
      desig ← desig_eng r;
      if negb (PyStr.str_in marker desig) then extract_rows rows' whs_sites
      else
        component ← make_component r desig;
        extract_rows rows' (dict_append (name component) component whs_sites)
  end.

(** [extract_whs_components(csv_path)]; the file is absent ([None]) or
    holds rows. *)
Definition extract_whs_components (csv : option (list row)) : result site_groups :=
  match csv with
  | None => Raise FileNotFoundError
  | Some rows => extract_rows rows []
  end.

(** ** Python sets of strings *)

(** A [set] lists its distinct elements in an order that depends on the
    hash seed of the process. [HashOrder] is one such seed: any way of
    listing the distinct elements of a collection. *)
Record HashOrder := {
  set_of : list string → list string;
  set_of_elem : ∀ l x, x ∈ set_of l ↔ x ∈ l;
  set_of_NoDup : ∀ l, NoDup (set_of l);
}.

(** [a & b] *)
Definition set_and (a b : list string) : list string :=
  filter (λ x, x ∈ b) a.

(** Truth value of a collection: it is not empty. *)
Definition nonempty {A} (l : list A) : bool :=
  match l with [] => false | _ :: _ => true end.

(** Two seeds: the distinct elements in the order of their last
    occurrence, and the same reversed. *)
Lemma elem_of_reverse_dups (l : list string) (x : string) :
  x ∈ reverse (remove_dups l) ↔ x ∈ l.
Proof. rewrite elem_of_reverse. apply elem_of_remove_dups. Qed.

Lemma NoDup_reverse_dups (l : list string) : NoDup (reverse (remove_dups l)).
Proof. rewrite reverse_Permutation. apply NoDup_remove_dups. Qed.

Definition seed_first : HashOrder :=
  {| set_of := remove_dups;
     set_of_elem := elem_of_remove_dups;
     set_of_NoDup := NoDup_remove_dups |}.

Definition seed_reversed : HashOrder :=
  {| set_of := λ l, reverse (remove_dups l);
     set_of_elem := elem_of_reverse_dups;
     set_of_NoDup := NoDup_reverse_dups |}.

(** ** The matcher *)

(** A canonical entity of [sites.json]: [site['translations']['en']['name']],
    [site['idNumber']] and [site['isoCodes']]. *)
Record UnescoSite := {
  en_name : string;
  idNumber : string;
  isoCodes : list string;
}.

Inductive tier := Exact | Substring | IsoFirstWord.

Section Matcher.
Variable h : HashOrder.

(** [wdpa_iso & unesco_iso] of strategy 3, as a truth value. *)
Definition iso_overlap (wdpa_codes unesco_codes : list string) : bool :=
  let wdpa_iso := set_of h (PyStr.lower <$> wdpa_codes) in
  let unesco_iso := set_of h (PyStr.lower <$> unesco_codes) in
  nonempty (set_and wdpa_iso unesco_iso).

(** The condition of strategy 3 once the ISO codes overlap. *)
Definition first_word_match (wdpa_name unesco_name : string) : result bool :=
  w ← PyStr.split_first wdpa_name;
  u ← PyStr.split_first unesco_name;
  let wdpa_first := PyStr.lower w in
  let unesco_first := PyStr.lower u in
  mret (bool_decide (wdpa_first = unesco_first)
        || PyStr.str_in wdpa_first (PyStr.lower unesco_name)
        || PyStr.str_in unesco_first (PyStr.lower wdpa_name)).

(** Strategy 3, with its guard [components and components[0]['iso_codes']]. *)
Definition strategy3 (wdpa_name : string) (components : list Component)
    (site : UnescoSite) : result bool :=
  match components with
  | c0 :: _ =>
      if nonempty (iso_codes c0) then
        if iso_overlap (iso_codes c0) (isoCodes site)
        then first_word_match wdpa_name (en_name site)
        else Ok false
      else Ok false
  | [] => Ok false
  end.

(** One turn of [for site in unesco_sites]: the strategy that accepts
    [site], if any. A name that is [None] has no [lower]. *)
Definition try_site (wdpa_name : option string) (components : list Component)
    (site : UnescoSite) : result (option tier) :=
  match wdpa_name with
  | None => Raise AttributeError
  | Some wdpa_name =>
      let unesco_name := en_name site in
      if bool_decide (PyStr.lower wdpa_name = PyStr.lower unesco_name)
      then Ok (Some Exact)
      else
        let wdpa_lower := PyStr.lower wdpa_name in
        let unesco_lower := PyStr.lower unesco_name in
        if PyStr.str_in wdpa_lower unesco_lower
           || PyStr.str_in unesco_lower wdpa_lower
        then Ok (Some Substring)
        else
          b ← strategy3 wdpa_name components site;
          mret (if b : bool then Some IsoFirstWord else None)
  end.

(** [for site in unesco_sites] for one group: the strategy and the
    identifier of the first site that a strategy accepts. *)
Fixpoint scan_sites (wdpa_name : option string) (components : list Component)
    (unesco_sites : list UnescoSite) : result (option (tier * string)) :=
  match unesco_sites with
  | [] => Ok None
  | site :: rest =>
      t ← try_site wdpa_name components site;
      match t with
      | Some t => Ok (Some (t, idNumber site))
      | None => scan_sites wdpa_name components rest
      end
  end.

(** [for wdpa_name, components in whs_data.items()] from the state
    [(mapping, unmatched)]. *)
Fixpoint match_groups (whs_data : site_groups) (unesco_sites : list UnescoSite)
    (mapping : list (option string * string)) (unmatched : list (option string))
    : result (list (option string * string) * list (option string)) :=
  match whs_data with
  | [] => Ok (mapping, unmatched)
  | (wdpa_name, components) :: rest =>
      hit ← scan_sites wdpa_name components unesco_sites;
      match hit with
      | Some (_, id) =>
          match_groups rest unesco_sites (dict_set wdpa_name id mapping) unmatched
      | None =>
          match_groups rest unesco_sites mapping (unmatched ++ [wdpa_name])
      end
  end.

(** The mapping together with the [unmatched] list that is printed. *)
Definition create_unesco_mapping_report (whs_data : site_groups)
    (unesco_sites : list UnescoSite) :=
  match_groups whs_data unesco_sites [] [].

(** [create_unesco_mapping(whs_data, unesco_sites)] *)
Definition create_unesco_mapping (whs_data : site_groups)
    (unesco_sites : list UnescoSite) : result (list (option string * string)) :=
  r ← create_unesco_mapping_report whs_data unesco_sites;
  mret r.1.
End Matcher.

(** ** The orchestrator *)

(** [load_unesco_sites(sites_json_path)] *)
Definition load_unesco_sites (json : option (list UnescoSite))
    : result (list UnescoSite) :=
  match json with
  | None => Raise FileNotFoundError
  | Some sites => Ok sites
  end.

(** [unesco_mapping.get(wdpa_name)] behind the test [if unesco_id:], which
    an absent name and an empty identifier both fail. *)
Definition resolve (unesco_mapping : list (option string * string))
    (wdpa_name : option string) : option string :=
  match dict_get wdpa_name unesco_mapping with
  | Some unesco_id => if PyStr.truthy unesco_id then Some unesco_id else None
  | None => None
  end.

(** Step 4 of [main], from the state [components_by_id]. *)
Fixpoint reorganize (whs_components : site_groups)
    (unesco_mapping : list (option string * string))
    (components_by_id : list (string * list Component))
    : list (string * list Component) :=
  match whs_components with
  | [] => components_by_id
  | (wdpa_name, components) :: rest =>
      match resolve unesco_mapping wdpa_name with
      | Some unesco_id =>
          if bool_decide (1 < length components)
          then reorganize rest unesco_mapping
                 (dict_set unesco_id components components_by_id)
          else reorganize rest unesco_mapping components_by_id
      | None => reorganize rest unesco_mapping components_by_id
      end
  end.

(** The two inputs, each absent or present. *)
Record inputs := {
  wdpa_csv : option (list row);
  unesco_json : option (list UnescoSite);
}.

(** What a run leaves: the exit status, and the text of each output file
    if the run wrote it. *)
Record outcome := {
  exit_code : Z;
  components_json : option string;
  mapping_json : option string;
}.

Section Main.
Variable h : HashOrder.
(** [json.dump(_, f, indent=2, ensure_ascii=False)] at its two uses. *)
Variable dump_components : list (string * list Component) → string.
Variable dump_mapping : list (option string * string) → string.

(** The body of [try] in [main] up to step 4. *)
Definition process (i : inputs)
    : result (list (string * list Component) * list (option string * string)) :=
  whs_components ← extract_whs_components (wdpa_csv i);
  unesco_sites ← load_unesco_sites (unesco_json i);
  unesco_mapping ← create_unesco_mapping h whs_components unesco_sites;
  mret (reorganize whs_components unesco_mapping [], unesco_mapping).

Definition main (i : inputs) : outcome :=
  match wdpa_csv i with
  | None =>
      {| exit_code := 1; components_json := None; mapping_json := None |}
  | Some _ =>
      match process i with
      | Ok (components_by_id, unesco_mapping) =>
          {| exit_code := 0;
             components_json := Some (dump_components components_by_id);
             mapping_json := Some (dump_mapping unesco_mapping) |}
      | Raise _ =>
          {| exit_code := 1; components_json := None; mapping_json := None |}
      end
  end.
End Main.

(** ** The loop body, the counters and the summary *)

(** One turn of [for row in reader] up to the component: [None] for a row
    that the filter skips. *)
Definition row_component (r : row) : result (option Component) :=
  desig ← desig_eng r;
  if negb (PyStr.str_in marker desig) then Ok None
  else component ← make_component r desig; mret (Some component).

(** The loop of the extractor with its counters, from the state
    [(whs_sites, whs_count, total_rows)]. *)
Fixpoint extract_rows_counted (rows : list row) (whs_sites : site_groups)
    (whs_count total_rows : nat) : result (site_groups * nat * nat) :=
  match rows with
  | [] => Ok (whs_sites, whs_count, total_rows)
  | r :: rows' =>
      let total_rows := S total_rows in
      desig ← desig_eng r;
      if negb (PyStr.str_in marker desig)
      then extract_rows_counted rows' whs_sites whs_count total_rows
      else
        let whs_count := S whs_count in
        component ← make_component r desig;
        extract_rows_counted rows'
          (dict_append (name component) component whs_sites) whs_count total_rows
  end.

(** [sum(len(v) for v in whs_components.values())] of the summary. *)
Definition total_components (whs_components : site_groups) : nat :=
  sum_list (length <$> whs_components.*2).

(** The distinct elements of a list in the order of their first
    occurrence: the order of the keys of a dictionary filled by
    insertion. *)
Fixpoint first_seen {A} `{EqDecision A} (l : list A) : list A :=
  match l with
  | [] => []
  | x :: l' => x :: filter (λ y, y ≠ x) (first_seen l')
  end.

(** The number of [sep] in [s]: [s.count(sep)]. *)
Fixpoint count_char (sep : ascii) (s : string) : nat :=
  match s with
  | EmptyString => 0
  | String c s' => (if bool_decide (c = sep) then 1 else 0) + count_char sep s'
  end.

(** * Sample data *)

(** A row with the given cells. *)
Definition row_of (cells : list (string * option string)) : row :=
  list_to_map cells.

Definition wall_section_1 : row :=
  row_of [("WDPAID", Some "1001"); ("NAME", Some "Great Wall");
          ("DESIG_ENG", Some "World Heritage Site (natural or mixed)");
          ("REP_AREA", Some "12.5"); ("ISO3", Some "CHN"); ("MARINE", Some "0")].

Definition wall_section_2 : row :=
  row_of [("WDPAID", Some "1002"); ("NAME", Some "Great Wall");
          ("DESIG_ENG", Some "World Heritage Site (natural or mixed)");
          ("REP_AREA", Some EmptyString); ("ISO3", Some EmptyString);
          ("MARINE", Some "0")].

Definition national_park : row :=
  row_of [("WDPAID", Some "2001"); ("NAME", Some "Great Wall Park");
          ("DESIG_ENG", Some "National Park"); ("REP_AREA", Some "3")].

Definition bad_area : row :=
  row_of [("WDPAID", Some "3001"); ("NAME", Some "Surtsey");
          ("DESIG_ENG", Some "World Heritage Site (natural or mixed)");
          ("REP_AREA", Some "abc")].

Definition site_exact : UnescoSite :=
  {| en_name := "Great Wall"; idNumber := "1"; isoCodes := ["CN"] |}.

Definition site_longer : UnescoSite :=
  {| en_name := "The Great Wall"; idNumber := "438"; isoCodes := ["CN"] |}.

Definition site_other : UnescoSite :=
  {| en_name := "Surtsey"; idNumber := "1267"; isoCodes := ["IS"] |}.

(** The groups of the two wall sections. *)
Definition wall_groups : site_groups :=
  match extract_whs_components (Some [wall_section_1; wall_section_2]) with
  | Ok whs => whs
  | Raise _ => []
  end.

Definition wall_components : list Component :=
  default [] (dict_get (Some "Great Wall") wall_groups).

Definition wall_alias_1 : row :=
  row_of [("WDPAID", Some "1003"); ("NAME", Some "The Great Wall");
          ("DESIG_ENG", Some "UNESCO World Heritage Site"); ("ISO3", Some "CHN")].

Definition wall_alias_2 : row :=
  row_of [("WDPAID", Some "1004"); ("NAME", Some "The Great Wall");
          ("DESIG_ENG", Some "UNESCO World Heritage Site"); ("ISO3", Some "CHN;MNG")].

Definition surtsey : row :=
  row_of [("WDPAID", Some "3002"); ("NAME", Some "Surtsey");
          ("DESIG_ENG", Some "World Heritage Site (natural or mixed)");
          ("REP_AREA", Some "33.7"); ("ISO3", Some "ISL")].

(** Three groups: [Great Wall] and [The Great Wall] with two components
    each, and [Surtsey] with one. *)
Definition two_walls : site_groups :=
  match extract_whs_components
          (Some [wall_section_1; wall_alias_1; national_park; wall_section_2;
                 surtsey; wall_alias_2]) with
  | Ok whs => whs
  | Raise _ => []
  end.

Definition alias_components : list Component :=
  default [] (dict_get (Some "The Great Wall") two_walls).

Definition surtsey_components : list Component :=
  default [] (dict_get (Some "Surtsey") two_walls).

Definition two_walls_mapping : list (option string * string) :=
  match create_unesco_mapping seed_first two_walls [site_longer; site_other] with
  | Ok m => m
  | Raise _ => []
  end.

Definition barrier_reef : row :=
  row_of [("WDPAID", Some "4001"); ("NAME", Some "Great Barrier");
          ("DESIG_ENG", Some "World Heritage Site (natural or mixed)");
          ("ISO3", Some EmptyString)].

Definition barrier_components : list Component :=
  match extract_whs_components (Some [barrier_reef; barrier_reef]) with
  | Ok whs => default [] (dict_get (Some "Great Barrier") whs)
  | Raise _ => []
  end.

Definition site_stones : UnescoSite :=
  {| en_name := "Wall of stones"; idNumber := "77"; isoCodes := ["chn"] |}.

Definition site_smoky : UnescoSite :=
  {| en_name := "Great Smoky Mountains"; idNumber := "259"; isoCodes := ["US"] |}.

(** A short row: the header names [NAME] but the row ends before it. *)
Definition nameless : row :=
  row_of [("WDPAID", Some "5001");
          ("DESIG_ENG", Some "World Heritage Site (natural or mixed)");
          ("NAME", None)].

Definition nameless_groups : site_groups :=
  match extract_whs_components (Some [surtsey; nameless; wall_section_1]) with
  | Ok whs => whs
  | Raise _ => []
  end.

(** A heritage row whose area cell holds two spaces. *)
Definition blank_area : row :=
  row_of [("WDPAID", Some "6001"); ("NAME", Some "Surtsey");
          ("DESIG_ENG", Some "World Heritage Site (natural or mixed)");
          ("REP_AREA", Some "  ")].

(** * Properties *)

(** ** The embedding on examples *)

Example float_examples :
  PyFloat.parse " 12.50 " = Some (PyFloat.FDec false 1250 (-2))
  ∧ PyFloat.parse "1_000e-3" = Some (PyFloat.FDec false 1000 (-3))
  ∧ PyFloat.parse "-Infinity" = Some (PyFloat.FInf true)
  ∧ PyFloat.parse ".5" = Some (PyFloat.FDec false 5 (-1))
  ∧ PyFloat.parse "5." = Some (PyFloat.FDec false 5 0)
  ∧ PyFloat.parse "0" = Some PyFloat.zero
  ∧ PyFloat.parse EmptyString = None
  ∧ PyFloat.parse "." = None
  ∧ PyFloat.parse "1e" = None
  ∧ PyFloat.parse "1__0" = None
  ∧ PyFloat.parse "abc" = None
  ∧ PyFloat.parse "12,5" = None.
Proof. repeat split; reflexivity. Qed.

(** The characters that [lower] moves and those that are white space,
    among all 256; [201] and [233] are E with acute, capital and small. *)
Example character_tables :
  filter (λ n, PyStr.lower_char (ascii_of_nat n) ≠ ascii_of_nat n) (seq 0 256)
  = seq 65 26 ++ seq 192 23 ++ seq 216 7
  ∧ Forall (λ n, nat_of_ascii (PyStr.lower_char (ascii_of_nat n)) = n + 32)
      (seq 65 26 ++ seq 192 23 ++ seq 216 7)
  ∧ filter (λ n, PyStr.isspace (ascii_of_nat n) = true) (seq 0 256)
    = [9; 10; 11; 12; 13; 28; 29; 30; 31; 32; 133; 160]
  ∧ filter (λ n, PyFloat.c_isspace (ascii_of_nat n) = true) (seq 0 256)
    = [9; 10; 11; 12; 13; 32; 133; 160]
  ∧ PyStr.lower (String "201" "COLE") = String "233" "cole"
  ∧ PyFloat.parse (String "160" "1.5") = Some (PyFloat.FDec false 15 (-1))
  ∧ PyFloat.parse (String "028" "1.5") = None.
Proof.
  split_and!; try reflexivity.
  apply (bool_decide_unpack _). by vm_compute.
Qed.

Example str_examples :
  PyStr.lower "Great WALL-1" = "great wall-1"
  ∧ PyStr.str_in "World Heritage" "UNESCO World Heritage Site" = true
  ∧ PyStr.str_in "World Heritage" "world heritage site" = false
  ∧ PyStr.str_in EmptyString EmptyString = true
  ∧ PyStr.split "  The  Great Wall " = ["The"; "Great"; "Wall"]
  ∧ PyStr.split_first "   " = Raise IndexError
  ∧ PyStr.split_on ";" "CHN; MNG" = ["CHN"; " MNG"]
  ∧ PyStr.split_on ";" ";" = [EmptyString; EmptyString]
  ∧ PyStr.strip "  MNG " = "MNG".
Proof. repeat split; reflexivity. Qed.

(** The sample groups and their mapping, and a whole run on them. *)
Example sample_run :
  dict_keys two_walls = [Some "Great Wall"; Some "The Great Wall"; Some "Surtsey"]
  ∧ length <$> two_walls.*2 = [2; 2; 1]
  ∧ two_walls_mapping
    = [(Some "Great Wall", "438"); (Some "The Great Wall", "438");
       (Some "Surtsey", "1267")]
  ∧ reorganize two_walls two_walls_mapping [] = [("438", alias_components)]
  ∧ wall_components ≠ alias_components
  ∧ exit_code (main seed_reversed (λ _, "components") (λ _, "mapping")
                 {| wdpa_csv := Some [wall_section_1; surtsey];
                    unesco_json := Some [site_other] |}) = 0%Z
  ∧ exit_code (main seed_reversed (λ _, "components") (λ _, "mapping")
                 {| wdpa_csv := Some [wall_section_1; bad_area];
                    unesco_json := Some [site_other] |}) = 1%Z.
Proof. split_and!; done. Qed.

(** ** Strings *)

Lemma startswith_spec (p s : string) :
  PyStr.startswith p s = true ↔ ∃ post, s = p +:+ post.
Proof.
  revert s. induction p as [|a p IH]; intros s; simpl.
  - split; [intros _; by exists s | done].
  - destruct s as [|b s]; simpl.
    + split; [done | by intros [post ?]].
    + rewrite andb_true_iff, bool_decide_eq_true, IH. split.
      * intros [-> [post ->]]. by exists post.
      * intros [post [= -> ->]]. split; [done | by exists post].
Qed.

(** [sub in s] holds exactly when [s] is some text, then [sub], then some
    text. *)
Lemma str_in_spec (sub s : string) :
  PyStr.str_in sub s = true ↔ ∃ pre post, s = pre +:+ sub +:+ post.
Proof.
  induction s as [|c s IH].
  - simpl. rewrite orb_false_r, startswith_spec. split.
    + intros [post ->]. by exists EmptyString, post.
    + intros [pre [post Heq]]. destruct pre; [by exists post | done].
  - cbn [PyStr.str_in]. rewrite orb_true_iff, startswith_spec, IH. split.
    + intros [[post ->] | [pre [post ->]]].
      * by exists EmptyString, post.
      * by exists (String c pre), post.
    + intros [pre [post Heq]]. destruct pre as [|c' pre].
      * left. by exists post.
      * right. injection Heq as -> ->. by exists pre, post.
Qed.

Lemma str_in_empty (s : string) : PyStr.str_in EmptyString s = true.
Proof. by destruct s. Qed.

Lemma lower_empty (s : string) : PyStr.lower s = EmptyString ↔ s = EmptyString.
Proof. by destruct s. Qed.

(** ** Dictionaries *)

Section PyDictFacts.
Context {K V : Type} `{EqDecision K}.
Implicit Types (d : list (K * V)) (k : K) (v : V).

Lemma dict_get_set_eq k v d : dict_get k (dict_set k v d) = Some v.
Proof.
  induction d as [|[k' v'] d IH]; simpl.
  - by rewrite decide_True.
  - destruct (decide (k = k')) as [->|Hne]; simpl.
    + by rewrite decide_True.
    + by rewrite decide_False.
Qed.

Lemma dict_get_set_ne k k' v d :
  k ≠ k' → dict_get k (dict_set k' v d) = dict_get k d.
Proof.
  intros Hne. induction d as [|[k2 v2] d IH]; simpl.
  - by rewrite decide_False.
  - destruct (decide (k' = k2)) as [->|Hne2]; simpl.
    + by rewrite !decide_False.
    + by rewrite IH.
Qed.

Lemma dict_keys_set k v d :
  dict_keys (dict_set k v d) =
  if bool_decide (k ∈ dict_keys d) then dict_keys d else dict_keys d ++ [k].
Proof.
  unfold dict_keys. induction d as [|[k' v'] d IH]; csimpl; [done|].
  destruct (decide (k = k')) as [->|Hne]; csimpl.
  - rewrite bool_decide_eq_true_2; [done | left].
  - rewrite IH. destruct (bool_decide (k ∈ d.*1)) eqn:Hin.
    + rewrite bool_decide_eq_true_2; [done|].
      right. by apply bool_decide_eq_true in Hin.
    + rewrite bool_decide_eq_false_2; [done|].
      apply bool_decide_eq_false in Hin. by intros [?|?]%elem_of_cons.
Qed.

Lemma dict_set_NoDup k v d : NoDup (dict_keys d) → NoDup (dict_keys (dict_set k v d)).
Proof.
  intros Hnd. rewrite dict_keys_set. case_bool_decide as Hin; [done|].
  apply NoDup_app. split_and!; [done | | apply NoDup_singleton].
  intros x Hx ->%list_elem_of_singleton. done.
Qed.

Lemma dict_set_elem k v k' v' d :
  (k', v') ∈ dict_set k v d → (k' = k ∧ v' = v) ∨ (k', v') ∈ d.
Proof.
  induction d as [|[k2 v2] d IH]; csimpl.
  - intros [= -> ->]%list_elem_of_singleton. by left.
  - destruct (decide (k = k2)) as [->|Hne].
    + intros [[= -> ->]|?]%elem_of_cons; [by left | right; by right].
    + intros [[= -> ->]|Hin]%elem_of_cons; [right; left|].
      destruct (IH Hin) as [?|?]; [by left | right; by right].
Qed.

Lemma dict_get_elem_NoDup k v d :
  NoDup (dict_keys d) → (k, v) ∈ d → dict_get k d = Some v.
Proof.
  unfold dict_keys. induction d as [|[k' v'] d IH]; csimpl.
  - by intros _ ?%elem_of_nil.
  - intros [Hnin Hnd]%NoDup_cons [[= -> ->]|Hin]%elem_of_cons.
    + by rewrite decide_True.
    + rewrite decide_False; [by apply IH|].
      intros ->. apply Hnin. apply list_elem_of_fmap. by exists (k', v).
Qed.

Lemma dict_get_None k d : dict_get k d = None ↔ k ∉ dict_keys d.
Proof.
  unfold dict_keys. induction d as [|[k' v'] d IH]; csimpl.
  - split; [intros _ ?%elem_of_nil; done | done].
  - destruct (decide (k = k')) as [->|Hne].
    + split; [done | intros Hnin; exfalso; apply Hnin; left].
    + rewrite IH. split.
      * by intros ? [?|?]%elem_of_cons.
      * intros Hnin ?. apply Hnin. by right.
Qed.

End PyDictFacts.

(** ** The error monad *)

Lemma bind_Ok {A B} (r : result A) (f : A → result B) (b : B) :
  r ≫= f = Ok b ↔ ∃ a, r = Ok a ∧ f a = Ok b.
Proof.
  destruct r as [a|e]; simpl.
  - split; [intros ?; by exists a | by intros [a' [[= <-] ?]]].
  - split; [done | by intros [a' [? ?]]].
Qed.

(** ** Grouping *)

Section Grouping.
Context {K A : Type} `{EqDecision K}.
Implicit Types (d : list (K * list A)) (k n : K) (x c : A).

Lemma dict_append_elem k x d n cs c :
  (n, cs) ∈ dict_append k x d → c ∈ cs →
  (n = k ∧ c = x) ∨ ∃ cs0, (n, cs0) ∈ d ∧ c ∈ cs0.
Proof.
  induction d as [|[k' l] d IH]; simpl.
  - intros [= -> ->]%list_elem_of_singleton ->%list_elem_of_singleton. by left.
  - destruct (decide (k = k')) as [->|Hne].
    + intros [[= -> ->]|Hin]%elem_of_cons Hc.
      * apply elem_of_app in Hc as [Hc | ->%list_elem_of_singleton]; [|by left].
        right. exists l. split; [left | done].
      * right. exists cs. split; [by right | done].
    + intros [[= -> ->]|Hin]%elem_of_cons Hc.
      * right. exists l. split; [left | done].
      * destruct (IH Hin Hc) as [?|[cs0 [? ?]]]; [by left|].
        right. exists cs0. split; [by right | done].
Qed.

Lemma dict_append_mono k x d n cs0 c :
  (n, cs0) ∈ d → c ∈ cs0 → ∃ cs, (n, cs) ∈ dict_append k x d ∧ c ∈ cs.
Proof.
  induction d as [|[k' l] d IH]; simpl.
  - by intros ?%elem_of_nil.
  - intros [[= -> ->]|Hin]%elem_of_cons Hc.
    + destruct (decide (k = k')) as [->|Hne].
      * exists (l ++ [x]). split; [left | apply elem_of_app; by left].
      * exists l. split; [left | done].
    + destruct (decide (k = k')) as [->|Hne].
      * exists cs0. split; [by right | done].
      * destruct (IH Hin Hc) as [cs [? ?]]. exists cs. split; [by right | done].
Qed.

Lemma dict_append_new k x d : ∃ cs, (k, cs) ∈ dict_append k x d ∧ x ∈ cs.
Proof.
  induction d as [|[k' l] d IH]; simpl.
  - exists [x]. split; apply list_elem_of_singleton; done.
  - destruct (decide (k = k')) as [->|Hne].
    + exists (l ++ [x]). split; [left|]. apply elem_of_app. right.
      by apply list_elem_of_singleton.
    + destruct IH as [cs [? ?]]. exists cs. split; [by right | done].
Qed.

Lemma dict_keys_append k x d :
  dict_keys (dict_append k x d) =
  if bool_decide (k ∈ dict_keys d) then dict_keys d else dict_keys d ++ [k].
Proof.
  unfold dict_keys. induction d as [|[k' l] d IH]; csimpl; [done|].
  destruct (decide (k = k')) as [->|Hne]; csimpl.
  - rewrite bool_decide_eq_true_2; [done | left].
  - rewrite IH. destruct (bool_decide (k ∈ d.*1)) eqn:Hin.
    + rewrite bool_decide_eq_true_2; [done|].
      right. by apply bool_decide_eq_true in Hin.
    + rewrite bool_decide_eq_false_2; [done|].
      apply bool_decide_eq_false in Hin. by intros [?|?]%elem_of_cons.
Qed.

Lemma dict_append_NoDup k x d :
  NoDup (dict_keys d) → NoDup (dict_keys (dict_append k x d)).
Proof.
  intros Hnd. rewrite dict_keys_append. case_bool_decide as Hin; [done|].
  apply NoDup_app. split_and!; [done | | apply NoDup_singleton].
  intros y Hy ->%list_elem_of_singleton. done.
Qed.
End Grouping.

(** ** The extractor *)

Lemma make_component_fields r d c :
  make_component r d = Ok c →
  designation c = d ∧ name c = get_str r "NAME" ∧ area_of r = Ok (area_km2 c).
Proof.
  unfold make_component. intros [area [Ha Hc]]%bind_Ok.
  injection Hc as <-. by rewrite Ha.
Qed.

(** Every component of a group comes from a row that passed the filter,
    or was in the state that the loop started from. *)
Lemma extract_rows_sound rows whs0 whs n cs c :
  extract_rows rows whs0 = Ok whs → (n, cs) ∈ whs → c ∈ cs →
  (∃ cs0, (n, cs0) ∈ whs0 ∧ c ∈ cs0)
  ∨ (∃ r d, r ∈ rows ∧ desig_eng r = Ok d ∧ PyStr.str_in marker d = true
            ∧ make_component r d = Ok c ∧ name c = n).
Proof.
  revert whs0. induction rows as [|r rows IH]; intros whs0; simpl.
  - intros [= ->] ??. left. by exists cs.
  - intros [d [Hd Hrest]]%bind_Ok Hin Hc.
    destruct (PyStr.str_in marker d) eqn:Hm; simpl in Hrest.
    + apply bind_Ok in Hrest as [c' [Hc' Hrest]].
      destruct (IH _ Hrest Hin Hc) as [[cs0 [Hin0 Hc0]] | (r' & d' & ? & ?)].
      * destruct (dict_append_elem _ _ _ _ _ _ Hin0 Hc0) as [[-> ->]|?]; [|by left].
        right. exists r, d. split_and!; [left | done..].
      * right. exists r', d'. split; [by right | done].
    + destruct (IH _ Hrest Hin Hc) as [?|(r' & d' & ? & ?)]; [by left|].
      right. exists r', d'. split; [by right | done].
Qed.

Lemma extract_rows_mono rows whs0 whs n cs0 c :
  extract_rows rows whs0 = Ok whs → (n, cs0) ∈ whs0 → c ∈ cs0 →
  ∃ cs, (n, cs) ∈ whs ∧ c ∈ cs.
Proof.
  revert whs0 cs0. induction rows as [|r rows IH]; intros whs0 cs0; simpl.
  - intros [= ->] ??. by exists cs0.
  - intros [d [Hd Hrest]]%bind_Ok Hin Hc.
    destruct (PyStr.str_in marker d) eqn:Hm; simpl in Hrest.
    + apply bind_Ok in Hrest as [c' [Hc' Hrest]].
      destruct (dict_append_mono (name c') c' _ _ _ _ Hin Hc) as [cs1 [? ?]].
      by eapply IH.
    + by eapply IH.
Qed.

(** Every row of a run that returns has a designation, and if that holds
    the marker the row's component is in the group of its name. *)
Lemma extract_rows_complete rows whs0 whs r :
  extract_rows rows whs0 = Ok whs → r ∈ rows →
  ∃ d, desig_eng r = Ok d ∧
    (PyStr.str_in marker d = true →
     ∃ c cs, make_component r d = Ok c ∧ (name c, cs) ∈ whs ∧ c ∈ cs).
Proof.
  revert whs0. induction rows as [|r' rows IH]; intros whs0; simpl.
  - by intros _ ?%elem_of_nil.
  - intros [d [Hd Hrest]]%bind_Ok [->|Hin]%elem_of_cons.
    + exists d. split; [done|]. intros Hm. rewrite Hm in Hrest. simpl in Hrest.
      apply bind_Ok in Hrest as [c [Hc Hrest]].
      destruct (dict_append_new (name c) c whs0) as [cs0 [Hin0 Hc0]].
      destruct (extract_rows_mono _ _ _ _ _ _ Hrest Hin0 Hc0) as [cs [? ?]].
      by exists c, cs.
    + destruct (PyStr.str_in marker d) eqn:Hm; simpl in Hrest.
      * apply bind_Ok in Hrest as [c' [Hc' Hrest]]. by eapply IH.
      * by eapply IH.
Qed.

Lemma extract_rows_NoDup rows whs0 whs :
  extract_rows rows whs0 = Ok whs → NoDup (dict_keys whs0) → NoDup (dict_keys whs).
Proof.
  revert whs0. induction rows as [|r rows IH]; intros whs0; simpl.
  - by intros [= ->].
  - intros [d [Hd Hrest]]%bind_Ok Hnd.
    destruct (PyStr.str_in marker d) eqn:Hm; simpl in Hrest.
    + apply bind_Ok in Hrest as [c' [Hc' Hrest]].
      eapply IH; [done|]. by apply dict_append_NoDup.
    + by eapply IH.
Qed.

(** ** The orchestrator: step 4 *)

Lemma reorganize_elem whs m acc id cs :
  (id, cs) ∈ reorganize whs m acc →
  (id, cs) ∈ acc
  ∨ (∃ n, (n, cs) ∈ whs ∧ resolve m n = Some id ∧ 1 < length cs).
Proof.
  revert acc. induction whs as [|[n comps] whs IH]; intros acc; simpl; [by left|].
  intros Hin.
  assert (∀ acc', (id, cs) ∈ reorganize whs m acc' →
    (id, cs) ∈ acc' ∨ (∃ n0, (n0, cs) ∈ (n, comps) :: whs
                 ∧ resolve m n0 = Some id ∧ 1 < length cs)) as Hstep.
  { intros acc' [?|(n0 & ? & ?)]%IH; [by left|].
    right. exists n0. split; [by right | done]. }
  destruct (resolve m n) as [uid|] eqn:Hres; [|by apply Hstep].
  case_bool_decide as Hlen; [|by apply Hstep].
  destruct (Hstep _ Hin) as [Hset|?]; [|by right].
  destruct (dict_set_elem _ _ _ _ _ Hset) as [[-> ->]|?]; [|by left].
  right. exists n. split; [left | done].
Qed.

Lemma reorganize_app whs1 whs2 m acc :
  reorganize (whs1 ++ whs2) m acc = reorganize whs2 m (reorganize whs1 m acc).
Proof.
  revert acc. induction whs1 as [|[n comps] whs1 IH]; intros acc; simpl; [done|].
  destruct (resolve m n); [|done]. by case_bool_decide.
Qed.

Lemma reorganize_NoDup whs m acc :
  NoDup (dict_keys acc) → NoDup (dict_keys (reorganize whs m acc)).
Proof.
  revert acc. induction whs as [|[n comps] whs IH]; intros acc Hnd; simpl; [done|].
  destruct (resolve m n); [|by apply IH].
  case_bool_decide; apply IH; [by apply dict_set_NoDup | done].
Qed.

(** Groups that do not write under [id] leave its entry alone. *)
Lemma reorganize_get_other whs m acc id :
  (∀ n comps, (n, comps) ∈ whs → resolve m n = Some id → length comps ≤ 1) →
  dict_get id (reorganize whs m acc) = dict_get id acc.
Proof.
  revert acc. induction whs as [|[n comps] whs IH]; intros acc Hothers; simpl; [done|].
  assert (∀ acc', dict_get id (reorganize whs m acc') = dict_get id acc') as Hrest.
  { intros acc'. apply IH. intros n0 c0 ?. apply Hothers. by right. }
  destruct (resolve m n) as [uid|] eqn:Hres; [|done].
  case_bool_decide as Hlen; [|done].
  rewrite Hrest. apply dict_get_set_ne. intros ->.
  assert (length comps ≤ 1) by (apply (Hothers n comps); [left | done]). lia.
Qed.

(** ** The matcher *)

Lemma nonempty_true {A} (l : list A) : nonempty l = true ↔ ∃ x, x ∈ l.
Proof.
  destruct l as [|a l]; simpl.
  - split; [done | by intros [x ?%elem_of_nil]].
  - split; [intros _; exists a; left | done].
Qed.

(** The ISO sets overlap exactly when some code, case folded, is in both:
    the order of a seed plays no part. *)
Lemma iso_overlap_spec h (wdpa_codes unesco_codes : list string) :
  iso_overlap h wdpa_codes unesco_codes = true
  ↔ ∃ x, x ∈ PyStr.lower <$> wdpa_codes ∧ x ∈ PyStr.lower <$> unesco_codes.
Proof.
  unfold iso_overlap, set_and. rewrite nonempty_true.
  split; intros [x Hx]; exists x.
  - apply list_elem_of_filter in Hx as [Hb Ha].
    by apply set_of_elem in Hb; apply set_of_elem in Ha.
  - destruct Hx as [Ha Hb]. apply list_elem_of_filter.
    split; by apply set_of_elem.
Qed.

Lemma iso_overlap_seed h1 h2 wdpa_codes unesco_codes :
  iso_overlap h1 wdpa_codes unesco_codes = iso_overlap h2 wdpa_codes unesco_codes.
Proof.
  apply eq_true_iff_eq. by rewrite !iso_overlap_spec.
Qed.

Lemma strategy3_seed h1 h2 wdpa_name components site :
  strategy3 h1 wdpa_name components site = strategy3 h2 wdpa_name components site.
Proof.
  unfold strategy3. destruct components as [|c0 ?]; [done|].
  by rewrite (iso_overlap_seed h1 h2).
Qed.

Lemma try_site_seed h1 h2 wdpa_name components site :
  try_site h1 wdpa_name components site = try_site h2 wdpa_name components site.
Proof.
  unfold try_site. destruct wdpa_name; [|done].
  by rewrite (strategy3_seed h1 h2).
Qed.

Lemma scan_sites_seed h1 h2 wdpa_name components unesco_sites :
  scan_sites h1 wdpa_name components unesco_sites
  = scan_sites h2 wdpa_name components unesco_sites.
Proof.
  induction unesco_sites as [|site rest IH]; simpl; [done|].
  by rewrite (try_site_seed h1 h2), IH.
Qed.

Lemma match_groups_seed h1 h2 whs_data unesco_sites mapping unmatched :
  match_groups h1 whs_data unesco_sites mapping unmatched
  = match_groups h2 whs_data unesco_sites mapping unmatched.
Proof.
  revert mapping unmatched.
  induction whs_data as [|[n comps] rest IH]; intros mapping unmatched; simpl; [done|].
  rewrite (scan_sites_seed h1 h2).
  destruct (scan_sites h2 n comps unesco_sites) as [[[t id]|]|e]; simpl; by rewrite ?IH.
Qed.

(** The scan of the registry accepts the first site, in registry order,
    that any strategy accepts, with the strategy that accepted it. *)
Lemma scan_sites_first h n comps sites t id :
  scan_sites h n comps sites = Ok (Some (t, id))
  ↔ ∃ pre s post, sites = pre ++ s :: post
      ∧ (∀ x, x ∈ pre → try_site h n comps x = Ok None)
      ∧ try_site h n comps s = Ok (Some t) ∧ id = idNumber s.
Proof.
  induction sites as [|site rest IH]; simpl.
  - split; [done|]. intros (pre & s & post & Heq & _). by destruct pre.
  - split.
    + intros [[t'|] [Htry Hrest]]%bind_Ok.
      * injection Hrest as <- <-. exists [], site, rest.
        split_and!; [done | by intros ? ?%elem_of_nil | done..].
      * apply IH in Hrest as (pre & s & post & -> & Hpre & Hs & ->).
        exists (site :: pre), s, post. split_and!; [done | | done..].
        intros x [->|?]%elem_of_cons; [done | by apply Hpre].
    + intros (pre & s & post & Heq & Hpre & Hs & ->).
      destruct pre as [|p pre]; simplify_eq/=.
      * by rewrite Hs.
      * rewrite (Hpre p) by left. simpl. apply IH.
        exists pre, s, post. split_and!; [done | | done..].
        intros x ?. apply Hpre. by right.
Qed.

Lemma scan_sites_none h n comps sites :
  scan_sites h n comps sites = Ok None
  ↔ ∀ x, x ∈ sites → try_site h n comps x = Ok None.
Proof.
  induction sites as [|site rest IH]; simpl.
  - split; [by intros _ ? ?%elem_of_nil | done].
  - split.
    + intros [[t'|] [Htry Hrest]]%bind_Ok; [done|].
      intros x [->|?]%elem_of_cons; [done | by apply IH].
    + intros Hall. rewrite (Hall site) by left. simpl. apply IH.
      intros x ?. apply Hall. by right.
Qed.

Section MatchGroups.
Variable h : HashOrder.
Variable sites : list UnescoSite.

Lemma match_groups_NoDup whs m0 u0 m u :
  match_groups h whs sites m0 u0 = Ok (m, u) →
  NoDup (dict_keys m0) → NoDup (dict_keys m).
Proof.
  revert m0 u0. induction whs as [|[n comps] whs IH]; intros m0 u0; simpl.
  - by intros [= -> ->].
  - intros [[[t id]|] [Hscan Hrest]]%bind_Ok Hnd.
    + eapply IH; [done|]. by apply dict_set_NoDup.
    + by eapply IH.
Qed.

(** An entry of the mapping was there at the start or is the hit of the
    scan for a group of that name. *)
Lemma match_groups_get whs m0 u0 m u k id :
  match_groups h whs sites m0 u0 = Ok (m, u) → dict_get k m = Some id →
  dict_get k m0 = Some id
  ∨ ∃ comps t, (k, comps) ∈ whs ∧ scan_sites h k comps sites = Ok (Some (t, id)).
Proof.
  revert m0 u0. induction whs as [|[n comps] whs IH]; intros m0 u0; simpl.
  - intros [= -> ->] ?. by left.
  - intros [[[t id']|] [Hscan Hrest]]%bind_Ok Hget.
    + destruct (IH _ _ Hrest Hget) as [Hset|(comps' & t' & ? & ?)].
      * destruct (decide (k = n)) as [->|Hne].
        -- rewrite dict_get_set_eq in Hset. injection Hset as ->.
           right. exists comps, t. split; [left | done].
        -- rewrite dict_get_set_ne in Hset by done. by left.
      * right. exists comps', t'. split; [by right | done].
    + destruct (IH _ _ Hrest Hget) as [?|(comps' & t' & ? & ?)]; [by left|].
      right. exists comps', t'. split; [by right | done].
Qed.

Lemma match_groups_get_other whs m0 u0 m u k :
  match_groups h whs sites m0 u0 = Ok (m, u) → k ∉ dict_keys whs →
  dict_get k m = dict_get k m0.
Proof.
  revert m0 u0. induction whs as [|[n comps] whs IH]; intros m0 u0; csimpl.
  - by intros [= -> ->].
  - intros [[[t id']|] [Hscan Hrest]]%bind_Ok Hnin.
    + rewrite (IH _ _ Hrest).
      * apply dict_get_set_ne. intros ->. apply Hnin. left.
      * intros ?. apply Hnin. by right.
    + apply (IH _ _ Hrest). intros ?. apply Hnin. by right.
Qed.

(** The hit of a group's scan is its entry in the mapping: no later group
    writes over it. *)
Lemma match_groups_hit whs m0 u0 m u k comps t id :
  match_groups h whs sites m0 u0 = Ok (m, u) → NoDup (dict_keys whs) →
  (k, comps) ∈ whs → scan_sites h k comps sites = Ok (Some (t, id)) →
  dict_get k m = Some id.
Proof.
  revert m0 u0. induction whs as [|[n comps'] whs IH]; intros m0 u0; csimpl.
  - by intros _ _ ?%elem_of_nil.
  - intros [hit [Hscan Hrest]]%bind_Ok [Hnin Hnd]%NoDup_cons
      [[= -> ->]|Hin]%elem_of_cons Hk.
    + rewrite Hk in Hscan. injection Hscan as <-.
      rewrite (match_groups_get_other _ _ _ _ _ _ Hrest Hnin).
      apply dict_get_set_eq.
    + destruct hit as [[t' id']|]; by eapply IH.
Qed.

(** A name is reported unmatched only if the scan for a group of that name
    found nothing. *)
Lemma match_groups_unmatched whs m0 u0 m u k :
  match_groups h whs sites m0 u0 = Ok (m, u) → k ∈ u →
  k ∈ u0 ∨ ∃ comps, (k, comps) ∈ whs ∧ scan_sites h k comps sites = Ok None.
Proof.
  revert m0 u0. induction whs as [|[n comps] whs IH]; intros m0 u0; simpl.
  - intros [= -> ->] ?. by left.
  - intros [[[t id']|] [Hscan Hrest]]%bind_Ok Hk.
    + destruct (IH _ _ Hrest Hk) as [?|(comps' & ? & ?)]; [by left|].
      right. exists comps'. split; [by right | done].
    + destruct (IH _ _ Hrest Hk) as [Hu|(comps' & ? & ?)].
      * apply elem_of_app in Hu as [? | ->%list_elem_of_singleton]; [by left|].
        right. exists comps. split; [left | done].
      * right. exists comps'. split; [by right | done].
Qed.

(** A group whose scan finds nothing is reported unmatched. *)
Lemma match_groups_miss whs m0 u0 m u k comps :
  match_groups h whs sites m0 u0 = Ok (m, u) → (k, comps) ∈ whs →
  scan_sites h k comps sites = Ok None → k ∈ u.
Proof.
  assert (∀ whs m0 u0, match_groups h whs sites m0 u0 = Ok (m, u) →
            k ∈ u0 → k ∈ u) as Hkeep.
  { clear. intros whs. induction whs as [|[n comps] whs IH]; intros m0 u0; simpl.
    - by intros [= -> ->].
    - intros [[[t id']|] [Hscan Hrest]]%bind_Ok Hk; [by eapply IH|].
      eapply IH; [done|]. apply elem_of_app. by left. }
  revert m0 u0. induction whs as [|[n comps'] whs IH]; intros m0 u0; simpl.
  - by intros _ ?%elem_of_nil.
  - intros [hit [Hscan Hrest]]%bind_Ok [[= -> ->]|Hin]%elem_of_cons Hk.
    + rewrite Hk in Hscan. injection Hscan as <-.
      eapply Hkeep; [done|]. apply elem_of_app. right. by apply list_elem_of_singleton.
    + destruct hit as [[t' id']|]; by eapply IH.
Qed.
End MatchGroups.

Lemma create_unesco_mapping_report_eq h whs sites m :
  create_unesco_mapping h whs sites = Ok m
  ↔ ∃ u, create_unesco_mapping_report h whs sites = Ok (m, u).
Proof.
  unfold create_unesco_mapping. rewrite bind_Ok. split.
  - intros [[m' u] [Hr Heq]]. injection Heq as <-. by exists u.
  - intros [u Hr]. by exists (m, u).
Qed.

(** * The claims *)

(** ** C1: exact match against substring match *)

(** C1, as stated, fails: the group name [Great Wall] equals the display
    name of [site_exact] and is merely a substring of the display name of
    [site_longer]; with [site_longer] first in the registry the mapping
    assigns the identifier of [site_longer], not that of [site_exact]. *)
Lemma C1_earlier_substring_site_wins :
  extract_whs_components (Some [wall_section_1; wall_section_2]) = Ok wall_groups
  ∧ dict_keys wall_groups = [Some "Great Wall"]
  ∧ PyStr.lower "Great Wall" = PyStr.lower (en_name site_exact)
  ∧ PyStr.lower "Great Wall" ≠ PyStr.lower (en_name site_longer)
  ∧ PyStr.str_in (PyStr.lower "Great Wall") (PyStr.lower (en_name site_longer)) = true
  ∧ create_unesco_mapping seed_first wall_groups [site_longer; site_exact]
    = Ok [(Some "Great Wall", idNumber site_longer)]
  ∧ idNumber site_longer ≠ idNumber site_exact.
Proof. split_and!; done. Qed.

(** The test of each strategy, for a group name that is a text. *)
Lemma try_site_tiers h (n : string) (comps : list Component) (s : UnescoSite) :
  (try_site h (Some n) comps s = Ok (Some Exact)
   ↔ PyStr.lower n = PyStr.lower (en_name s))
  ∧ (try_site h (Some n) comps s = Ok (Some Substring)
     ↔ PyStr.lower n ≠ PyStr.lower (en_name s)
       ∧ (PyStr.str_in (PyStr.lower n) (PyStr.lower (en_name s)) = true
          ∨ PyStr.str_in (PyStr.lower (en_name s)) (PyStr.lower n) = true))
  ∧ (try_site h (Some n) comps s = Ok (Some IsoFirstWord)
     ↔ PyStr.lower n ≠ PyStr.lower (en_name s)
       ∧ PyStr.str_in (PyStr.lower n) (PyStr.lower (en_name s)) = false
       ∧ PyStr.str_in (PyStr.lower (en_name s)) (PyStr.lower n) = false
       ∧ strategy3 h n comps s = Ok true).
Proof.
  unfold try_site. case_bool_decide as Heq.
  { split_and!; split; try done; by intros [? _]. }
  destruct (PyStr.str_in (PyStr.lower n) (PyStr.lower (en_name s))) eqn:Hsub1;
    simpl.
  { split_and!; split; try done; [by intros _; split; [|left] | by intros (_ & ? & _)]. }
  destruct (PyStr.str_in (PyStr.lower (en_name s)) (PyStr.lower n)) eqn:Hsub2;
    simpl.
  { split_and!; split; try done; [by intros _; split; [|right] | by intros (_ & _ & ? & _)]. }
  destruct (strategy3 h n comps s) as [[]|e]; simpl.
  - split_and!; split; try done; by intros [_ [?|?]].
  - split_and!; split; try done; [by intros [_ [?|?]] | by intros (_ & _ & _ & ?)].
  - split_and!; split; try done; [by intros [_ [?|?]] | by intros (_ & _ & _ & ?)].
Qed.

(** C1, amended: the mapping assigns a group name the identifier of the
    first site, in registry order, that any strategy accepts, whether by
    the exact test, the substring test in either direction or the ISO
    test, and it has an entry for the name in that way only. Strategy 1
    comes before strategies 2 and 3 at one site, not across sites: a site
    whose display name equals the group name is assigned when no site
    before it is accepted by any strategy, and a site before it that
    strategy 2 or 3 accepts is assigned in its place. *)
Theorem C1_first_accepted_site_wins h (whs : site_groups) (sites : list UnescoSite)
    (m : list (option string * string)) (wdpa_name : string)
    (comps : list Component) :
  NoDup (dict_keys whs) →
  create_unesco_mapping h whs sites = Ok m →
  (Some wdpa_name, comps) ∈ whs →
  (∀ pre s post t,
     sites = pre ++ s :: post →
     (∀ x, x ∈ pre → try_site h (Some wdpa_name) comps x = Ok None) →
     try_site h (Some wdpa_name) comps s = Ok (Some t) →
     dict_get (Some wdpa_name) m = Some (idNumber s))
  ∧ (∀ id, dict_get (Some wdpa_name) m = Some id →
       ∃ pre s post t,
         sites = pre ++ s :: post
         ∧ (∀ x, x ∈ pre → try_site h (Some wdpa_name) comps x = Ok None)
         ∧ try_site h (Some wdpa_name) comps s = Ok (Some t)
         ∧ id = idNumber s)
  ∧ (∀ s, PyStr.lower wdpa_name = PyStr.lower (en_name s) →
       try_site h (Some wdpa_name) comps s = Ok (Some Exact))
  ∧ (∀ s, PyStr.lower wdpa_name ≠ PyStr.lower (en_name s) →
       PyStr.str_in (PyStr.lower wdpa_name) (PyStr.lower (en_name s)) = true
       ∨ PyStr.str_in (PyStr.lower (en_name s)) (PyStr.lower wdpa_name) = true →
       try_site h (Some wdpa_name) comps s = Ok (Some Substring)).
Proof.
  intros Hnd [u Hm]%create_unesco_mapping_report_eq Hin. split_and!.
  - intros pre s post t -> Hpre Hs.
    eapply match_groups_hit; [exact Hm | done | exact Hin |].
    apply scan_sites_first. by exists pre, s, post.
  - intros id Hget.
    destruct (match_groups_get _ _ _ _ _ _ _ _ _ Hm Hget)
      as [? | (comps' & t & Hin' & Hscan)]; [done|].
    assert (comps' = comps) as ->.
    { apply (dict_get_elem_NoDup _ _ _ Hnd) in Hin, Hin'. congruence. }
    apply scan_sites_first in Hscan as (pre & s & post & ? & ? & ? & ?).
    by exists pre, s, post, t.
  - intros s Heq. by apply try_site_tiers.
  - intros s Hne Hsub. by apply try_site_tiers.
Qed.

Lemma C1_first_accepted_site_wins_witness :
  dict_get (Some "Great Wall")
    [(Some "Great Wall", idNumber site_exact)] = Some (idNumber site_exact)
  ∧ dict_get (Some "Great Wall")
    [(Some "Great Wall", idNumber site_longer)] = Some (idNumber site_longer)
  ∧ dict_get (Some "Great Wall")
    [(Some "Great Wall", idNumber site_stones)] = Some (idNumber site_stones).
Proof.
  split_and!.
  - apply (proj1 (C1_first_accepted_site_wins seed_first wall_groups
             [site_other; site_exact; site_longer]
             [(Some "Great Wall", idNumber site_exact)] "Great Wall"
             wall_components (NoDup_singleton _) eq_refl
             (list_elem_of_here _ _))
           [site_other] site_exact [site_longer] Exact).
    + reflexivity.
    + intros x ->%list_elem_of_singleton. reflexivity.
    + reflexivity.
  - apply (proj1 (C1_first_accepted_site_wins seed_first wall_groups
             [site_other; site_longer; site_exact]
             [(Some "Great Wall", idNumber site_longer)] "Great Wall"
             wall_components (NoDup_singleton _) eq_refl
             (list_elem_of_here _ _))
           [site_other] site_longer [site_exact] Substring).
    + reflexivity.
    + intros x ->%list_elem_of_singleton. reflexivity.
    + reflexivity.
  - apply (proj1 (C1_first_accepted_site_wins seed_first wall_groups
             [site_other; site_stones; site_exact]
             [(Some "Great Wall", idNumber site_stones)] "Great Wall"
             wall_components (NoDup_singleton _) eq_refl
             (list_elem_of_here _ _))
           [site_other] site_stones [site_exact] IsoFirstWord).
    + reflexivity.
    + intros x ->%list_elem_of_singleton. reflexivity.
    + reflexivity.
Defined.

(** ** C2: the area field *)

(** C2, as stated, fails: [bad_area] passes the designation filter and its
    area cell is [abc]; that is neither missing nor empty, so no default
    replaces it, [float] raises [ValueError] and the extraction with it. *)
Lemma C2_invalid_area_raises :
  desig_eng bad_area = Ok "World Heritage Site (natural or mixed)"
  ∧ PyStr.str_in marker "World Heritage Site (natural or mixed)" = true
  ∧ bad_area !! "REP_AREA" = Some (Some "abc")
  ∧ area_of bad_area = Raise ValueError
  ∧ make_component bad_area "World Heritage Site (natural or mixed)" = Raise ValueError
  ∧ extract_whs_components (Some [wall_section_1; bad_area]) = Raise ValueError.
Proof. split_and!; reflexivity. Qed.

(** C2, amended: for a row that passes the designation filter, an area
    column that is missing, [None] or the empty string gives the area
    [0.0] and the construction of the component does not raise; any other
    area text is parsed by [float], and the construction raises
    [ValueError] exactly when that text is not a float literal. *)
Theorem C2_area_default_before_parsing (r : row) (desig : string) :
  desig_eng r = Ok desig →
  PyStr.str_in marker desig = true →
  (r !! "REP_AREA" = None ∨ r !! "REP_AREA" = Some None
     ∨ r !! "REP_AREA" = Some (Some EmptyString) →
   ∃ c, make_component r desig = Ok c ∧ area_km2 c = PyFloat.zero)
  ∧ (∀ s, r !! "REP_AREA" = Some (Some s) → s ≠ EmptyString →
     match PyFloat.parse s with
     | Some f => ∃ c, make_component r desig = Ok c ∧ area_km2 c = f
     | None => make_component r desig = Raise ValueError
     end).
Proof.
  intros _ _. unfold make_component, area_of. split.
  - intros [-> | [-> | ->]]; simpl; eexists; split; reflexivity.
  - intros s -> Hs. unfold PyStr.truthy.
    rewrite bool_decide_eq_false_2 by done. simpl. unfold PyFloat.of_str.
    destruct (PyFloat.parse s) as [f|]; simpl; [|done].
    eexists; split; reflexivity.
Qed.

Lemma C2_area_default_before_parsing_witness :
  (∃ c, make_component wall_section_2 "World Heritage Site (natural or mixed)" = Ok c
        ∧ area_km2 c = PyFloat.zero)
  ∧ make_component bad_area "World Heritage Site (natural or mixed)" = Raise ValueError.
Proof.
  split.
  - apply (C2_area_default_before_parsing wall_section_2
             "World Heritage Site (natural or mixed)"); [reflexivity..|].
    right. right. reflexivity.
  - apply (proj2 (C2_area_default_before_parsing bad_area
             "World Heritage Site (natural or mixed)" eq_refl eq_refl) "abc");
      [reflexivity | discriminate].
Defined.

(** ** C3: two groups with one identifier *)

(** C3: when two groups resolve to one identifier, that is, the mapping
    has a non-empty identifier for both names, and both have more than one
    component, then the output holds under that identifier the components
    of the later group and nothing else, the later group being the last of
    the groups that write under the identifier. *)
Theorem C3_later_group_overwrites (m : list (option string * string))
    (pre mid post : site_groups) (n1 n2 : option string)
    (c1 c2 : list Component) (id : string) :
  resolve m n1 = Some id → resolve m n2 = Some id →
  1 < length c1 → 1 < length c2 →
  (∀ n c, (n, c) ∈ post → resolve m n = Some id → length c ≤ 1) →
  dict_get id (reorganize (pre ++ (n1, c1) :: mid ++ (n2, c2) :: post) m [])
    = Some c2
  ∧ ∀ cs, (id, cs) ∈ reorganize (pre ++ (n1, c1) :: mid ++ (n2, c2) :: post) m []
          → cs = c2.
Proof.
  intros _ H2 _ Hlen Hpost.
  assert (dict_get id
            (reorganize (pre ++ (n1, c1) :: mid ++ (n2, c2) :: post) m [])
          = Some c2) as Hget.
  { replace (pre ++ (n1, c1) :: mid ++ (n2, c2) :: post)
      with ((pre ++ (n1, c1) :: mid) ++ (n2, c2) :: post)
      by (by rewrite <- app_assoc).
    rewrite reorganize_app. simpl. rewrite H2.
    rewrite bool_decide_eq_true_2 by done.
    rewrite reorganize_get_other by done. apply dict_get_set_eq. }
  split; [done|]. intros cs Hin.
  apply dict_get_elem_NoDup in Hin; [congruence|].
  apply reorganize_NoDup. constructor.
Qed.

Lemma C3_later_group_overwrites_witness :
  dict_get "438" (reorganize two_walls two_walls_mapping []) = Some alias_components
  ∧ ∀ cs, ("438", cs) ∈ reorganize two_walls two_walls_mapping []
          → cs = alias_components.
Proof.
  apply (C3_later_group_overwrites two_walls_mapping []
           [] [(Some "Surtsey", surtsey_components)]
           (Some "Great Wall") (Some "The Great Wall")
           wall_components alias_components "438").
  - reflexivity.
  - reflexivity.
  - vm_compute. lia.
  - vm_compute. lia.
  - intros n c [= -> ->]%list_elem_of_singleton. discriminate.
Defined.

(** ** C4: groups of one component *)

(** C4: a group with exactly one component is not a value of the output,
    whatever the mapping says about its name; and when the groups are
    those of the extractor, its component is in no list of the output. *)
Theorem C4_single_component_group_excluded (whs : site_groups)
    (m : list (option string * string)) (n : option string)
    (comps : list Component) :
  (n, comps) ∈ whs → length comps = 1 →
  (∀ id, (id, comps) ∉ reorganize whs m [])
  ∧ (∀ rows id cs c,
       extract_whs_components (Some rows) = Ok whs →
       (id, cs) ∈ reorganize whs m [] → c ∈ comps → c ∉ cs).
Proof.
  intros Hin Hlen. split.
  - intros id [?%elem_of_nil | (n' & _ & _ & ?)]%reorganize_elem; [done | lia].
  - intros rows id cs c Hex [?%elem_of_nil | (n' & Hin' & _ & Hlen')]%reorganize_elem
      Hc Hc'; [done|]. simpl in Hex.
    assert (name c = n) as Hn.
    { destruct (extract_rows_sound _ _ _ _ _ _ Hex Hin Hc)
        as [[? [?%elem_of_nil _]] | (? & ? & _ & _ & _ & _ & ?)]; done. }
    assert (name c = n') as Hn'.
    { destruct (extract_rows_sound _ _ _ _ _ _ Hex Hin' Hc')
        as [[? [?%elem_of_nil _]] | (? & ? & _ & _ & _ & _ & ?)]; done. }
    assert (NoDup (dict_keys whs)) as Hnd.
    { eapply extract_rows_NoDup; [done | constructor]. }
    apply (dict_get_elem_NoDup _ _ _ Hnd) in Hin, Hin'.
    assert (cs = comps) by congruence. subst. lia.
Qed.

Lemma C4_single_component_group_excluded_witness :
  (∀ id, (id, surtsey_components) ∉ reorganize two_walls two_walls_mapping [])
  ∧ (∀ rows id cs c,
       extract_whs_components (Some rows) = Ok two_walls →
       (id, cs) ∈ reorganize two_walls two_walls_mapping [] →
       c ∈ surtsey_components → c ∉ cs).
Proof.
  apply (C4_single_component_group_excluded two_walls two_walls_mapping
           (Some "Surtsey") surtsey_components).
  - right. right. left.
  - reflexivity.
Defined.

(** ** C5: the designation filter *)

(** C5: in a run of the extractor that returns, a row is in a site group,
    that is, the component built from its cells is in some group's list,
    exactly when its designation is some text, the marker, and some text;
    and the component of a row without the marker is in no list of the
    output either. *)
Theorem C5_grouped_iff_marker_in_designation (rows : list row)
    (whs : site_groups) (r : row) :
  extract_whs_components (Some rows) = Ok whs → r ∈ rows →
  ∃ d, desig_eng r = Ok d
    ∧ ((∃ c n cs, make_component r d = Ok c ∧ (n, cs) ∈ whs ∧ c ∈ cs)
       ↔ (∃ pre post, d = pre +:+ marker +:+ post))
    ∧ (¬ (∃ pre post, d = pre +:+ marker +:+ post) →
       ∀ m id cs c, make_component r d = Ok c →
         (id, cs) ∈ reorganize whs m [] → c ∉ cs).
Proof.
  simpl. intros Hex Hr.
  destruct (extract_rows_complete _ _ _ _ Hex Hr) as (d & Hd & Hgrouped).
  assert (∀ c n cs, make_component r d = Ok c → (n, cs) ∈ whs → c ∈ cs →
            PyStr.str_in marker d = true) as Hmarked.
  { intros c n cs Hc Hin Hcs.
    destruct (extract_rows_sound _ _ _ _ _ _ Hex Hin Hcs)
      as [[? [?%elem_of_nil _]] | (r' & d' & _ & _ & Hm & Hc' & _)]; [done|].
    apply make_component_fields in Hc as [<- _].
    apply make_component_fields in Hc' as [<- _]. done. }
  exists d. split_and!; [done | |].
  - rewrite <- str_in_spec. split.
    + intros (c & n & cs & ? & ? & ?). by eapply Hmarked.
    + intros Hm. destruct (Hgrouped Hm) as (c & cs & ? & ? & ?).
      by exists c, (name c), cs.
  - rewrite <- str_in_spec. intros Hno m id cs c Hc
      [?%elem_of_nil | (n & Hin & _)]%reorganize_elem Hcs; [done|].
    apply Hno. by eapply Hmarked.
Qed.

Lemma C5_grouped_iff_marker_in_designation_witness :
  ∃ d, desig_eng national_park = Ok d
    ∧ ((∃ c n cs, make_component national_park d = Ok c
                  ∧ (n, cs) ∈ two_walls ∧ c ∈ cs)
       ↔ (∃ pre post, d = pre +:+ marker +:+ post))
    ∧ (¬ (∃ pre post, d = pre +:+ marker +:+ post) →
       ∀ m id cs c, make_component national_park d = Ok c →
         (id, cs) ∈ reorganize two_walls m [] → c ∉ cs).
Proof.
  apply (C5_grouped_iff_marker_in_designation
           [wall_section_1; wall_alias_1; national_park; wall_section_2;
            surtsey; wall_alias_2]).
  - reflexivity.
  - right. right. left.
Defined.

(** ** C6: the ISO strategy needs ISO codes *)

(** C6: for a group whose components all have an empty ISO list, strategy
    3 accepts no site, whatever the names, so no scan of the registry ends
    with it; and strategy 3 gets past its guard only for a group that has
    a component with a non-empty ISO list. *)
Theorem C6_iso_strategy_needs_iso_codes h (wdpa_name : string)
    (comps : list Component) (sites : list UnescoSite) :
  (∀ c, c ∈ comps → iso_codes c = []) →
  (∀ site, strategy3 h wdpa_name comps site = Ok false)
  ∧ (∀ site, try_site h (Some wdpa_name) comps site ≠ Ok (Some IsoFirstWord))
  ∧ (∀ id, scan_sites h (Some wdpa_name) comps sites ≠ Ok (Some (IsoFirstWord, id)))
  ∧ (∀ comps' site, strategy3 h wdpa_name comps' site ≠ Ok false →
       ∃ c, c ∈ comps' ∧ iso_codes c ≠ []).
Proof.
  intros Hempty.
  assert (∀ site, strategy3 h wdpa_name comps site = Ok false) as Hoff.
  { intros site. unfold strategy3. destruct comps as [|c0 ?]; [done|].
    rewrite (Hempty c0) by left. done. }
  assert (∀ site, try_site h (Some wdpa_name) comps site ≠ Ok (Some IsoFirstWord))
    as Htry.
  { intros site. unfold try_site. case_bool_decide; [done|].
    destruct (_ || _); [done|]. by rewrite Hoff. }
  split_and!; [done | done | |].
  - intros id (pre & s & post & _ & _ & Hs & _)%scan_sites_first. by eapply Htry.
  - intros comps' site. unfold strategy3. destruct comps' as [|c0 rest]; [done|].
    destruct (iso_codes c0) as [|code codes] eqn:Hcodes; [done|]. intros _.
    exists c0. split; [left | by rewrite Hcodes].
Qed.

Lemma C6_iso_strategy_needs_iso_codes_witness :
  (∀ site, strategy3 seed_first "Great Barrier" barrier_components site = Ok false)
  ∧ (∀ site, try_site seed_first (Some "Great Barrier") barrier_components site
             ≠ Ok (Some IsoFirstWord))
  ∧ (∀ id, scan_sites seed_first (Some "Great Barrier") barrier_components
             [site_smoky] ≠ Ok (Some (IsoFirstWord, id)))
  ∧ (∀ comps' site, strategy3 seed_first "Great Barrier" comps' site ≠ Ok false →
       ∃ c, c ∈ comps' ∧ iso_codes c ≠ []).
Proof.
  apply (C6_iso_strategy_needs_iso_codes seed_first "Great Barrier"
           barrier_components [site_smoky]).
  intros c [-> | [-> | ?%elem_of_nil]%elem_of_cons]%elem_of_cons;
    [reflexivity | reflexivity | done].
Defined.

(** ** C7: the mapping *)

(** C7: the returned mapping has at most one entry for a name, and each
    of its keys is a key of the site groups. For every group the entry is
    decided by the scan of the registry alone: if some site is accepted,
    the group's name has the identifier of the first accepted site, and
    no later group writes over it; if no site is accepted, the name has
    no entry. So an entry, where there is one, is the identifier of the
    first accepted site for that group; and a key of the site groups may
    be absent from the mapping, as [Surtsey] is when the registry holds
    [site_longer] alone. *)
Theorem C7_mapping_entries h (whs : site_groups) (sites : list UnescoSite)
    (m : list (option string * string)) :
  NoDup (dict_keys whs) → create_unesco_mapping h whs sites = Ok m →
  NoDup (dict_keys m)
  ∧ (∀ k, k ∈ dict_keys m → k ∈ dict_keys whs)
  ∧ (∀ k comps, (k, comps) ∈ whs →
       (∀ pre s post t,
          sites = pre ++ s :: post →
          (∀ x, x ∈ pre → try_site h k comps x = Ok None) →
          try_site h k comps s = Ok (Some t) →
          dict_get k m = Some (idNumber s))
       ∧ ((∀ x, x ∈ sites → try_site h k comps x = Ok None) →
          dict_get k m = None))
  ∧ (∀ k id, dict_get k m = Some id →
       ∃ comps t pre s post,
         dict_get k whs = Some comps ∧ sites = pre ++ s :: post
         ∧ (∀ x, x ∈ pre → try_site h k comps x = Ok None)
         ∧ try_site h k comps s = Ok (Some t) ∧ id = idNumber s)
  ∧ (∃ m' k',
       create_unesco_mapping seed_first two_walls [site_longer] = Ok m'
       ∧ k' ∈ dict_keys two_walls ∧ k' ∉ dict_keys m').
Proof.
  intros Hnd [u Hm]%create_unesco_mapping_report_eq.
  assert (∀ k id, dict_get k m = Some id →
            ∃ comps t, (k, comps) ∈ whs
              ∧ scan_sites h k comps sites = Ok (Some (t, id))) as Hentry.
  { intros k id Hget.
    by destruct (match_groups_get _ _ _ _ _ _ _ _ _ Hm Hget) as [?|?]. }
  split_and!.
  - eapply match_groups_NoDup; [exact Hm | constructor].
  - intros k Hk. destruct (dict_get k m) as [id|] eqn:Hget.
    + destruct (Hentry _ _ Hget) as (comps & t & Hin & _).
      apply list_elem_of_fmap. by exists (k, comps).
    + by apply dict_get_None in Hget.
  - intros k comps Hin. split.
    + intros pre s post t -> Hpre Hs.
      eapply match_groups_hit; [exact Hm | done | exact Hin |].
      apply scan_sites_first. by exists pre, s, post.
    + intros Hnone. destruct (dict_get k m) as [id|] eqn:Hget; [|done].
      destruct (Hentry _ _ Hget) as (comps' & t & Hin' & Hscan).
      assert (comps' = comps) as ->.
      { apply (dict_get_elem_NoDup _ _ _ Hnd) in Hin, Hin'. congruence. }
      apply scan_sites_none in Hnone. congruence.
  - intros k id Hget. destruct (Hentry _ _ Hget) as (comps & t & Hin & Hscan).
    apply scan_sites_first in Hscan as (pre & s & post & ? & ? & ? & ?).
    exists comps, t, pre, s, post. split_and!; [|done..].
    by apply dict_get_elem_NoDup.
  - exists [(Some "Great Wall", "438"); (Some "The Great Wall", "438")],
      (Some "Surtsey").
    split_and!; [reflexivity | |]; apply (bool_decide_unpack _); by vm_compute.
Qed.

Lemma C7_mapping_entries_witness :
  NoDup (dict_keys two_walls_mapping)
  ∧ (∀ k, k ∈ dict_keys two_walls_mapping → k ∈ dict_keys two_walls)
  ∧ (∀ k comps, (k, comps) ∈ two_walls →
       (∀ pre s post t,
          [site_longer; site_other] = pre ++ s :: post →
          (∀ x, x ∈ pre → try_site seed_first k comps x = Ok None) →
          try_site seed_first k comps s = Ok (Some t) →
          dict_get k two_walls_mapping = Some (idNumber s))
       ∧ ((∀ x, x ∈ [site_longer; site_other]
               → try_site seed_first k comps x = Ok None) →
          dict_get k two_walls_mapping = None))
  ∧ (∀ k id, dict_get k two_walls_mapping = Some id →
       ∃ comps t pre s post,
         dict_get k two_walls = Some comps
         ∧ [site_longer; site_other] = pre ++ s :: post
         ∧ (∀ x, x ∈ pre → try_site seed_first k comps x = Ok None)
         ∧ try_site seed_first k comps s = Ok (Some t) ∧ id = idNumber s)
  ∧ (∃ m' k',
       create_unesco_mapping seed_first two_walls [site_longer] = Ok m'
       ∧ k' ∈ dict_keys two_walls ∧ k' ∉ dict_keys m').
Proof.
  apply (C7_mapping_entries seed_first two_walls [site_longer; site_other]
           two_walls_mapping).
  - apply (bool_decide_unpack _). vm_compute. exact I.
  - reflexivity.
Defined.

(** ** C8: determinism *)

(** C8: two runs on the same inputs end with the same exit status and the
    same text in both output files. Each run has a hash seed of its own,
    which fixes the order in which its sets list their elements; the rows
    and the registry come in the same order in both. *)
Theorem C8_runs_agree (h1 h2 : HashOrder)
    (dump_components : list (string * list Component) → string)
    (dump_mapping : list (option string * string) → string) (i : inputs) :
  main h1 dump_components dump_mapping i = main h2 dump_components dump_mapping i.
Proof.
  unfold main, process, create_unesco_mapping, create_unesco_mapping_report.
  destruct (wdpa_csv i) as [rows|]; [|done].
  destruct (extract_whs_components (Some rows)) as [whs|e]; [|done]. simpl.
  destruct (load_unesco_sites (unesco_json i)) as [sites|e]; [|done]. simpl.
  by rewrite (match_groups_seed h1 h2).
Qed.

(** ** C9: the exit status *)

(** C9: the exit status is [0] or [1]. It is [0] exactly on full success,
    that is, when both inputs are present and the extractor and the
    matcher both return; it is [1] when either input is missing, and when
    the extractor or the matcher raises. *)
Theorem C9_exit_code (h : HashOrder)
    (dump_components : list (string * list Component) → string)
    (dump_mapping : list (option string * string) → string) (i : inputs) :
  let run := main h dump_components dump_mapping i in
  (exit_code run = 0 ∨ exit_code run = 1)%Z
  ∧ ((exit_code run = 0)%Z
     ↔ ∃ rows sites whs m,
         wdpa_csv i = Some rows ∧ unesco_json i = Some sites
         ∧ extract_whs_components (Some rows) = Ok whs
         ∧ create_unesco_mapping h whs sites = Ok m)
  ∧ (wdpa_csv i = None ∨ unesco_json i = None → (exit_code run = 1)%Z)
  ∧ (∀ e, extract_whs_components (wdpa_csv i) = Raise e → (exit_code run = 1)%Z)
  ∧ (∀ whs sites e,
       extract_whs_components (wdpa_csv i) = Ok whs →
       load_unesco_sites (unesco_json i) = Ok sites →
       create_unesco_mapping h whs sites = Raise e → (exit_code run = 1)%Z).
Proof.
  destruct i as [[rows|] json]; unfold main, process; simpl.
  2: { split_and!; [by right | | done..].
       split; [done | by intros (? & ? & ? & ? & ? & _)]. }
  destruct (extract_rows rows []) as [whs|e] eqn:Hex; simpl.
  2: { split_and!; [by right | | done..].
       split; [done | intros (? & ? & ? & ? & ? & _ & ? & _); congruence]. }
  destruct json as [sites|]; simpl.
  2: { split_and!; [by right | | done..].
       split; [done | by intros (? & ? & ? & ? & _ & ? & _)]. }
  destruct (create_unesco_mapping h whs sites) as [m|e] eqn:Hm; simpl.
  - split_and!; [by left | | by intros [?|?] | done |].
    + split; [intros _ | done]. by exists rows, sites, whs, m.
    + intros whs' sites' e ? ?. congruence.
  - split_and!; [by right | | done..].
    split; [done | intros (? & ? & ? & ? & ? & ? & ? & ?); congruence].
Qed.

(** ** C10: a group with the empty name *)

Lemma scan_sites_empty_name h comps s rest :
  scan_sites h (Some EmptyString) comps (s :: rest)
  = Ok (Some (if bool_decide (en_name s = EmptyString) then Exact else Substring,
              idNumber s)).
Proof.
  cbn [scan_sites try_site PyStr.lower].
  destruct (decide (en_name s = EmptyString)) as [Hname|Hname].
  - by rewrite Hname.
  - rewrite (bool_decide_eq_false_2 (en_name s = EmptyString)) by done.
    rewrite bool_decide_eq_false_2.
    + by rewrite str_in_empty.
    + intros Hlow. apply Hname. by apply lower_empty.
Qed.

(** C10: the empty string is in every display name, so for the group with
    the empty name the substring test of strategy 2 holds at the first
    site of a registry that has one, and the scan stops at that site with
    its identifier. (The script does not record which strategy accepted a
    site; here the scan names strategy 2, and strategy 1 only if that
    site's display name is empty too, where both tests hold.) The mapping
    a run returns holds the first site's identifier under the empty name,
    and the empty name is not in the list of unmatched names. *)
Theorem C10_empty_name_takes_first_site h (comps : list Component)
    (s : UnescoSite) (rest : list UnescoSite) :
  PyStr.str_in (PyStr.lower EmptyString) (PyStr.lower (en_name s)) = true
  ∧ (∃ t, scan_sites h (Some EmptyString) comps (s :: rest)
            = Ok (Some (t, idNumber s))
          ∧ (en_name s ≠ EmptyString → t = Substring)
          ∧ (en_name s = EmptyString → t = Exact))
  ∧ (∀ whs m u,
       NoDup (dict_keys whs) → (Some EmptyString, comps) ∈ whs →
       create_unesco_mapping_report h whs (s :: rest) = Ok (m, u) →
       dict_get (Some EmptyString) m = Some (idNumber s)
       ∧ Some EmptyString ∉ u).
Proof.
  split_and!.
  - apply str_in_empty.
  - eexists. split; [apply scan_sites_empty_name|].
    split; intros ?; [by rewrite bool_decide_eq_false_2
                     | by rewrite bool_decide_eq_true_2].
  - intros whs m u Hnd Hin Hm. split.
    + eapply match_groups_hit; [exact Hm | done | exact Hin |].
      apply scan_sites_empty_name.
    + intros [?%elem_of_nil | (comps' & _ & Hnone)]%(match_groups_unmatched _ _ _ _ _ _ _ _ Hm);
        [done|].
      by rewrite scan_sites_empty_name in Hnone.
Qed.

(** * Further properties *)

(** ** The extractor: errors *)

Lemma extract_rows_cons r rows whs :
  extract_rows (r :: rows) whs
  = row_component r ≫= λ oc,
      extract_rows rows
        (match oc with Some c => dict_append (name c) c whs | None => whs end).
Proof.
  simpl. unfold row_component. destruct (desig_eng r) as [d|e]; simpl; [|done].
  destruct (PyStr.str_in marker d); simpl; [|done].
  by destruct (make_component r d).
Qed.

(** X1: the loop body raises on a row in two cases only: [TypeError] when
    the designation cell is [None], and [ValueError] when the designation
    holds the marker and the area cell is a non-empty text that is not a
    float literal. A bad area in a row without the marker is never read. *)
Theorem row_component_raises (r : row) (e : exn) :
  row_component r = Raise e
  ↔ (r !! "DESIG_ENG" = Some None ∧ e = TypeError)
    ∨ (∃ d s, r !! "DESIG_ENG" = Some (Some d) ∧ PyStr.str_in marker d = true
         ∧ r !! "REP_AREA" = Some (Some s) ∧ s ≠ EmptyString
         ∧ PyFloat.parse s = None ∧ e = ValueError).
Proof.
  unfold row_component, desig_eng, get_str.
  destruct (r !! "DESIG_ENG") as [[d|]|] eqn:Hd; simpl.
  - destruct (PyStr.str_in marker d) eqn:Hm; simpl.
    + unfold make_component, area_of, PyFloat.of_str, PyStr.truthy.
      destruct (r !! "REP_AREA") as [[s|]|] eqn:Ha; simpl.
      * case_bool_decide as Hs; simpl.
        { split; [done|]. intros [[? _] | (? & ? & _ & _ & ? & ? & _)]; congruence. }
        destruct (PyFloat.parse s) eqn:Hp; simpl.
        { split; [done|]. intros [[? _] | (? & ? & _ & _ & ? & _ & ? & _)]; congruence. }
        split.
        -- intros [= <-]. right. by exists d, s.
        -- by intros [[? _] | (? & ? & _ & _ & _ & _ & _ & ->)].
      * split; [done|]. intros [[? _] | (? & ? & _ & _ & ? & _)]; congruence.
      * split; [done|]. intros [[? _] | (? & ? & _ & _ & ? & _)]; congruence.
    + split; [done|]. intros [[? _] | (? & ? & ? & ? & _)]; congruence.
  - split.
    + intros [= <-]. by left.
    + by intros [[_ ->] | (? & ? & ? & _)].
  - split; [done|]. intros [[? _] | (? & ? & ? & _)]; congruence.
Qed.

Lemma extract_rows_returns rows whs0 :
  (∃ whs, extract_rows rows whs0 = Ok whs)
  ↔ ∀ r, r ∈ rows → ∃ oc, row_component r = Ok oc.
Proof.
  revert whs0. induction rows as [|r rows IH]; intros whs0.
  - split; [by intros _ ? ?%elem_of_nil | intros _; by exists whs0].
  - rewrite extract_rows_cons. split.
    + intros [whs [oc [Hoc Hrest]]%bind_Ok] x [->|Hx]%elem_of_cons; [by exists oc|].
      eapply IH; [by exists whs | done].
    + intros Hall. destruct (Hall r) as [oc Hoc]; [left|]. rewrite Hoc. simpl.
      apply IH. intros x ?. apply Hall. by right.
Qed.

(** X2: the extractor returns exactly when the loop body raises on no
    row; the grouping itself cannot fail. *)
Theorem extract_returns_iff (rows : list row) :
  (∃ whs, extract_whs_components (Some rows) = Ok whs)
  ↔ ∀ r, r ∈ rows → ∃ oc, row_component r = Ok oc.
Proof. apply extract_rows_returns. Qed.

(** X3: the extractor raises the exception of the first row on which the
    loop body raises, whatever the rows after it hold. *)
Theorem extract_raises_at_first_bad_row (pre post : list row) (r : row) (e : exn) :
  (∀ x, x ∈ pre → ∃ oc, row_component x = Ok oc) →
  row_component r = Raise e →
  extract_whs_components (Some (pre ++ r :: post)) = Raise e.
Proof.
  intros Hpre Hr. simpl. generalize (@nil (option string * list Component)).
  induction pre as [|x pre IH]; intros whs0.
  - simpl app. by rewrite extract_rows_cons, Hr.
  - change ((x :: pre) ++ r :: post) with (x :: (pre ++ r :: post)).
    rewrite extract_rows_cons. destruct (Hpre x) as [oc Hoc]; [left|].
    rewrite Hoc. simpl. apply IH. intros y ?. apply Hpre. by right.
Qed.

Lemma extract_raises_at_first_bad_row_witness :
  extract_whs_components
    (Some ([wall_section_1; national_park] ++ bad_area :: [wall_section_2]))
  = Raise ValueError.
Proof.
  apply (extract_raises_at_first_bad_row [wall_section_1; national_park]
           [wall_section_2] bad_area ValueError).
  - intros x [-> | [-> | ?%elem_of_nil]%elem_of_cons]%elem_of_cons;
      [eexists; reflexivity | eexists; reflexivity | done].
  - reflexivity.
Defined.

(** ** The extractor: groups, order and counters *)

Section FirstSeen.
Context {A : Type} `{EqDecision A}.
Implicit Types (l : list A) (x : A).

Lemma elem_of_first_seen l x : x ∈ first_seen l ↔ x ∈ l.
Proof.
  induction l as [|y l IH]; simpl; [done|].
  rewrite !elem_of_cons, list_elem_of_filter, IH. split.
  - intros [->|[_ ?]]; [by left | by right].
  - intros [->|?]; [by left|].
    destruct (decide (x = y)) as [->|]; [by left | by right].
Qed.

Lemma filter_all (P : A → Prop) `{!∀ x, Decision (P x)} l :
  (∀ x, P x) → filter P l = l.
Proof.
  intros HP. induction l as [|y l IH]; [done|].
  by rewrite filter_cons, decide_True, IH.
Qed.

Lemma NoDup_first_seen l : NoDup (first_seen l).
Proof.
  induction l as [|y l IH]; simpl; [constructor|].
  apply NoDup_cons. split; [|by apply NoDup_filter].
  intros [? _]%list_elem_of_filter. done.
Qed.
End FirstSeen.

Lemma dict_get_append {K A} `{EqDecision K} (n k : K) (x : A)
    (d : list (K * list A)) :
  default [] (dict_get n (dict_append k x d))
  = default [] (dict_get n d) ++ (if decide (n = k) then [x] else []).
Proof.
  induction d as [|[k' l] d IH]; simpl.
  - by destruct (decide (n = k)).
  - destruct (decide (k = k')) as [->|Hne]; simpl.
    + destruct (decide (n = k')); simpl; [done | by rewrite app_nil_r].
    + destruct (decide (n = k')) as [->|]; simpl; [|done].
      rewrite decide_False by done. by rewrite app_nil_r.
Qed.

Lemma total_components_append (k : option string) (c : Component)
    (whs : site_groups) :
  total_components (dict_append k c whs) = S (total_components whs).
Proof.
  unfold total_components. induction whs as [|[k' l] whs IH]; csimpl; [done|].
  destruct (decide (k = k')) as [->|Hne]; csimpl.
  - rewrite length_app. simpl. unfold id. lia.
  - rewrite IH. unfold id. lia.
Qed.

Lemma extract_rows_closed rows whs0 whs :
  extract_rows rows whs0 = Ok whs →
  ∃ ocs, Forall2 (λ r oc, row_component r = Ok oc) rows ocs
    ∧ (∀ n, default [] (dict_get n whs)
            = default [] (dict_get n whs0)
              ++ filter (λ c, name c = n) (omap id ocs))
    ∧ dict_keys whs
      = dict_keys whs0
        ++ filter (λ k, k ∉ dict_keys whs0) (first_seen (name <$> omap id ocs))
    ∧ total_components whs = total_components whs0 + length (omap id ocs).
Proof.
  revert whs0. induction rows as [|r rows IH]; intros whs0.
  - intros [= ->]. exists []. split_and!; [constructor | | |]; simpl.
    + intros n. by rewrite app_nil_r.
    + by rewrite app_nil_r.
    + lia.
  - rewrite extract_rows_cons. intros [oc [Hoc Hrest]]%bind_Ok.
    destruct (IH _ Hrest) as (ocs & Hall & Hget & Hkeys & Htotal).
    exists (oc :: ocs). split; [by constructor|].
    destruct oc as [c|]; [|done]. csimpl. split_and!.
    + intros n. rewrite Hget, dict_get_append, <- app_assoc. f_equal.
      rewrite filter_cons. by destruct (decide (name c = n)) as [<-|];
        [rewrite decide_True | rewrite decide_False].
    + rewrite Hkeys, dict_keys_append. rewrite filter_cons.
      case_bool_decide as Hin.
      * rewrite decide_False by (by intros ?).
        rewrite list_filter_filter. f_equal. apply list_filter_iff.
        intros k. split; [|tauto]. intros Hk. split; [done|]. by intros ->.
      * rewrite decide_True by done. rewrite <- app_assoc. simpl. do 2 f_equal.
        rewrite list_filter_filter. apply list_filter_iff.
        intros k. rewrite elem_of_app, list_elem_of_singleton. tauto.
    + rewrite Htotal, total_components_append. lia.
Qed.

(** X4: the groups of a run that returns hold the components of the
    rows that pass the filter: each group lists those of its name in row
    order, and the groups stand in the order in which their names first
    occur. *)
Theorem extract_groups_in_row_order (rows : list row) (whs : site_groups) :
  extract_whs_components (Some rows) = Ok whs →
  ∃ ocs, Forall2 (λ r oc, row_component r = Ok oc) rows ocs
    ∧ (∀ n, default [] (dict_get n whs) = filter (λ c, name c = n) (omap id ocs))
    ∧ dict_keys whs = first_seen (name <$> omap id ocs).
Proof.
  intros (ocs & Hall & Hget & Hkeys & _)%extract_rows_closed.
  exists ocs. split_and!; [done | done |]. rewrite Hkeys. simpl.
  apply filter_all. intros k ?%elem_of_nil. done.
Qed.

Lemma extract_groups_in_row_order_witness :
  ∃ ocs, Forall2 (λ r oc, row_component r = Ok oc)
           [wall_section_1; wall_alias_1; national_park; wall_section_2;
            surtsey; wall_alias_2] ocs
    ∧ (∀ n, default [] (dict_get n two_walls)
            = filter (λ c, name c = n) (omap id ocs))
    ∧ dict_keys two_walls = first_seen (name <$> omap id ocs).
Proof.
  apply (extract_groups_in_row_order
           [wall_section_1; wall_alias_1; national_park; wall_section_2;
            surtsey; wall_alias_2] two_walls).
  reflexivity.
Defined.

Lemma extract_rows_invariant (rows : list row) (whs : site_groups) :
  extract_whs_components (Some rows) = Ok whs →
  NoDup (dict_keys whs)
  ∧ ∀ n cs, (n, cs) ∈ whs →
      cs ≠ []
      ∧ ∀ c, c ∈ cs → name c = n ∧ PyStr.str_in marker (designation c) = true.
Proof.
  intros Hex. simpl in Hex.
  assert (NoDup (dict_keys whs)) as Hnd.
  { eapply extract_rows_NoDup; [done | constructor]. }
  split; [done|]. intros n cs Hin. split.
  - destruct (extract_rows_closed _ _ _ Hex) as (ocs & _ & Hget & Hkeys & _).
    specialize (Hget n). rewrite (dict_get_elem_NoDup _ _ _ Hnd Hin) in Hget.
    simpl in Hget, Hkeys. intros ->.
    assert (n ∈ dict_keys whs) as Hn.
    { apply list_elem_of_fmap. by exists (n, []). }
    rewrite Hkeys in Hn. apply list_elem_of_filter in Hn as [_ Hn].
    apply elem_of_first_seen, list_elem_of_fmap in Hn as (c & -> & Hc).
    assert (c ∈ filter (λ c', name c' = name c) (omap id ocs)) as Hc'
      by (by apply list_elem_of_filter).
    rewrite <- Hget in Hc'. by apply elem_of_nil in Hc'.
  - intros c Hc.
    destruct (extract_rows_sound _ _ _ _ _ _ Hex Hin Hc)
      as [[? [?%elem_of_nil _]] | (r & d & _ & _ & Hm & Hmk & Hn)]; [done|].
    apply make_component_fields in Hmk as [-> _]. done.
Qed.

(** X5: every group of a run that returns is a non-empty list, all of its
    components carry the group's name, and their designation holds the
    marker; no name has two groups. *)
Theorem extract_groups_invariant (rows : list row) (whs : site_groups) :
  extract_whs_components (Some rows) = Ok whs →
  NoDup (dict_keys whs)
  ∧ ∀ n cs, (n, cs) ∈ whs →
      cs ≠ []
      ∧ ∀ c, c ∈ cs → name c = n ∧ PyStr.str_in marker (designation c) = true.
Proof. apply extract_rows_invariant. Qed.

Lemma extract_groups_invariant_witness :
  NoDup (dict_keys two_walls)
  ∧ ∀ n cs, (n, cs) ∈ two_walls →
      cs ≠ []
      ∧ ∀ c, c ∈ cs → name c = n ∧ PyStr.str_in marker (designation c) = true.
Proof.
  apply (extract_groups_invariant
           [wall_section_1; wall_alias_1; national_park; wall_section_2;
            surtsey; wall_alias_2] two_walls).
  reflexivity.
Defined.

Lemma omap_id_length {A} (l : list (option A)) : length (omap id l) ≤ length l.
Proof. induction l as [|[x|] l IH]; csimpl; lia. Qed.

Lemma counted_eq (whs : site_groups) (c c' t t' : nat) :
  c = c' → t = t' → @Ok (site_groups * nat * nat) (whs, c, t) = Ok (whs, c', t').
Proof. by intros -> ->. Qed.

Lemma extract_rows_counted_spec rows whs0 c0 t0 :
  extract_rows_counted rows whs0 c0 t0
  = match extract_rows rows whs0 with
    | Ok whs =>
        Ok (whs, c0 + (total_components whs - total_components whs0),
            t0 + length rows)
    | Raise e => Raise e
    end.
Proof.
  revert whs0 c0 t0. induction rows as [|r rows IH]; intros whs0 c0 t0; simpl.
  - apply counted_eq; lia.
  - destruct (desig_eng r) as [d|e]; simpl; [|done].
    destruct (PyStr.str_in marker d); simpl.
    + destruct (make_component r d) as [c|e]; simpl; [|done].
      rewrite IH. destruct (extract_rows rows _) as [whs|e] eqn:Hex; [|done].
      apply extract_rows_closed in Hex as (ocs & _ & _ & _ & Htotal).
      rewrite total_components_append in Htotal.
      rewrite total_components_append. apply counted_eq; lia.
    + rewrite IH. destruct (extract_rows rows whs0); [|done]. apply counted_eq; lia.
Qed.

(** X6: the counters of the loop. In a run that returns, [total_rows] is
    the number of rows, and [whs_count], the number of rows that passed
    the filter, is the number of components in all groups, which the
    summary prints again; the counters never change what is returned or
    raised. The groups are no more than the components, and those no more
    than the rows. *)
Theorem extract_counters (rows : list row) :
  extract_rows_counted rows [] 0 0
  = match extract_whs_components (Some rows) with
    | Ok whs => Ok (whs, total_components whs, length rows)
    | Raise e => Raise e
    end
  ∧ ∀ whs, extract_whs_components (Some rows) = Ok whs →
      length whs ≤ total_components whs ∧ total_components whs ≤ length rows.
Proof.
  split.
  - rewrite extract_rows_counted_spec. simpl.
    destruct (extract_rows rows []); [|done]. apply counted_eq; [|lia].
    unfold total_components at 2. simpl. lia.
  - intros whs Hex.
    destruct (extract_rows_invariant _ _ Hex) as [_ Hinv].
    destruct (extract_rows_closed _ _ _ Hex) as (ocs & Hall & _ & _ & Htotal).
    split.
    + clear -Hinv. unfold total_components.
      induction whs as [|[n cs] whs IH]; csimpl; [done|].
      assert (cs ≠ []) by (apply (Hinv n cs); left).
      assert (length whs ≤ sum_list (length <$> whs.*2)).
      { apply IH. intros n' cs' ?. apply Hinv. by right. }
      destruct cs; [done|]. simpl. unfold id in *. lia.
    + rewrite Htotal. unfold total_components at 1. simpl.
      rewrite (Forall2_length _ _ _ Hall). apply omap_id_length.
Qed.

(** ** The extractor: ISO codes *)

Lemma append_cons (a : ascii) (s1 s2 : string) :
  String a s1 +:+ s2 = String a (s1 +:+ s2).
Proof. reflexivity. Qed.

Lemma append_empty_r (s : string) : s +:+ EmptyString = s.
Proof. induction s as [|a s IH]; [done|]. by rewrite append_cons, IH. Qed.

Lemma count_char_append sep (s1 s2 : string) :
  count_char sep (s1 +:+ s2) = count_char sep s1 + count_char sep s2.
Proof.
  induction s1 as [|a s1 IH]; [done|]. rewrite append_cons. simpl.
  rewrite IH. lia.
Qed.

Lemma split_on_go_length sep cur s :
  length (PyStr.split_on_go sep cur s) = S (count_char sep s).
Proof.
  revert cur. induction s as [|c s IH]; intros cur; simpl; [done|].
  case_bool_decide; simpl; rewrite IH; lia.
Qed.

Lemma split_on_go_pieces sep cur s p :
  count_char sep cur = 0 → p ∈ PyStr.split_on_go sep cur s → count_char sep p = 0.
Proof.
  revert cur. induction s as [|c s IH]; intros cur Hcur; simpl.
  - by intros ->%list_elem_of_singleton.
  - case_bool_decide as Hc.
    + intros [->|Hp]%elem_of_cons; [done|]. by apply (IH EmptyString).
    + apply IH. rewrite count_char_append, Hcur. simpl.
      by rewrite bool_decide_eq_false_2.
Qed.

Lemma rev_app_rev_app (s1 s2 s3 : string) :
  String.rev_app (String.rev_app s1 s2) s3 = String.rev_app s2 (s1 +:+ s3).
Proof.
  revert s2. induction s1 as [|a s1 IH]; intros s2; simpl; [done|].
  by rewrite IH.
Qed.

Lemma rev_involutive (s : string) : String.rev (String.rev s) = s.
Proof.
  unfold String.rev. rewrite rev_app_rev_app. simpl. apply append_empty_r.
Qed.

Lemma count_char_rev_app sep (s1 s2 : string) :
  count_char sep (String.rev_app s1 s2) = count_char sep s1 + count_char sep s2.
Proof.
  revert s2. induction s1 as [|a s1 IH]; intros s2; simpl; [done|].
  rewrite IH. simpl. lia.
Qed.

Lemma count_char_lstrip sep (s : string) :
  count_char sep (PyStr.lstrip s) ≤ count_char sep s.
Proof.
  induction s as [|a s IH]; simpl; [done|].
  destruct (PyStr.isspace a); simpl; lia.
Qed.

Lemma count_char_strip sep (s : string) :
  count_char sep (PyStr.strip s) ≤ count_char sep s.
Proof.
  unfold PyStr.strip, String.rev. rewrite count_char_rev_app. simpl.
  etrans; [rewrite Nat.add_0_r; apply count_char_lstrip|].
  rewrite count_char_rev_app. simpl. rewrite Nat.add_0_r.
  apply count_char_lstrip.
Qed.

(** The first and the last character of a string. *)
Definition first_char (s : string) : option ascii :=
  match s with EmptyString => None | String c _ => Some c end.

Fixpoint last_char (s : string) : option ascii :=
  match s with
  | EmptyString => None
  | String c s' => Some (default c (last_char s'))
  end.

Lemma first_char_rev_app (s1 s2 : string) :
  first_char (String.rev_app s1 s2)
  = match last_char s1 with Some c => Some c | None => first_char s2 end.
Proof.
  revert s2. induction s1 as [|a s1 IH]; intros s2; simpl; [done|].
  rewrite IH. by destruct (last_char s1).
Qed.

Lemma last_char_rev_app (s1 s2 : string) :
  last_char (String.rev_app s1 s2)
  = match last_char s2 with Some c => Some c | None => first_char s1 end.
Proof.
  revert s2. induction s1 as [|a s1 IH]; intros s2; simpl;
    [by destruct (last_char s2)|].
  rewrite IH. simpl. by destruct (last_char s2).
Qed.

Lemma lstrip_first_char (s : string) (c : ascii) :
  first_char (PyStr.lstrip s) = Some c → PyStr.isspace c = false.
Proof.
  induction s as [|a s IH]; simpl; [done|].
  destruct (PyStr.isspace a) eqn:Ha; [done|]. simpl. by intros [= <-].
Qed.

Lemma lstrip_last_char (s : string) (c : ascii) :
  last_char (PyStr.lstrip s) = Some c → last_char s = Some c.
Proof.
  induction s as [|a s IH]; simpl; [done|].
  destruct (PyStr.isspace a) eqn:Ha; [|done].
  intros Hc. rewrite (IH Hc). done.
Qed.

Lemma lstrip_id (s : string) :
  (∀ c, first_char s = Some c → PyStr.isspace c = false) → PyStr.lstrip s = s.
Proof.
  destruct s as [|a s]; simpl; [done|]. intros Hc. by rewrite (Hc a).
Qed.

(** Stripping a stripped string changes nothing. *)
Lemma strip_strip (s : string) : PyStr.strip (PyStr.strip s) = PyStr.strip s.
Proof.
  assert (∀ c, first_char (PyStr.strip s) = Some c → PyStr.isspace c = false)
    as Hfirst.
  { intros c. unfold PyStr.strip, String.rev at 1.
    rewrite first_char_rev_app. simpl.
    destruct (last_char (PyStr.lstrip _)) as [c'|] eqn:Hlast; [|done].
    intros [= ->]. apply lstrip_last_char in Hlast.
    unfold String.rev in Hlast. rewrite last_char_rev_app in Hlast.
    simpl in Hlast. by apply lstrip_first_char in Hlast. }
  assert (∀ c, first_char (String.rev (PyStr.strip s)) = Some c
               → PyStr.isspace c = false) as Hlast.
  { intros c. unfold PyStr.strip. rewrite rev_involutive.
    apply lstrip_first_char. }
  unfold PyStr.strip at 1. rewrite (lstrip_id _ Hfirst), (lstrip_id _ Hlast).
  apply rev_involutive.
Qed.

(** X7: the ISO list of a row is empty exactly when the ISO cell is
    missing, [None] or empty; any other cell gives one code more than it
    has semicolons, never an empty list, and each code is stripped and
    holds no semicolon. *)
Theorem iso_codes_of_cell (r : row) :
  (iso_codes_of r = []
   ↔ r !! "ISO3" = None ∨ r !! "ISO3" = Some None
     ∨ r !! "ISO3" = Some (Some EmptyString))
  ∧ ∀ s, r !! "ISO3" = Some (Some s) → s ≠ EmptyString →
      length (iso_codes_of r) = S (count_char ";" s)
      ∧ ∀ code, code ∈ iso_codes_of r →
          count_char ";" code = 0 ∧ PyStr.strip code = code.
Proof.
  unfold iso_codes_of, PyStr.truthy, PyStr.split_on. split.
  - destruct (r !! "ISO3") as [[s|]|]; [|naive_solver..].
    case_bool_decide as Hs; simpl.
    + subst. naive_solver.
    + split.
      * intros Hnil. apply (f_equal length) in Hnil.
        rewrite length_fmap, split_on_go_length in Hnil. done.
      * intros [?|[?|?]]; congruence.
  - intros s -> Hs. rewrite bool_decide_eq_false_2 by done. simpl.
    split; [by rewrite length_fmap, split_on_go_length|].
    intros code (p & -> & Hp)%list_elem_of_fmap. split; [|apply strip_strip].
    pose proof (count_char_strip ";" p).
    pose proof (split_on_go_pieces ";" EmptyString s p eq_refl Hp). lia.
Qed.

(** ** The matcher: case *)

Lemma isspace_lower (c : ascii) :
  PyStr.isspace (PyStr.lower_char c) = PyStr.isspace c.
Proof. by destruct c as [[] [] [] [] [] [] [] []]. Qed.

Lemma lower_append (s1 s2 : string) :
  PyStr.lower (s1 +:+ s2) = PyStr.lower s1 +:+ PyStr.lower s2.
Proof.
  induction s1 as [|a s1 IH]; [done|]. rewrite append_cons. simpl.
  by rewrite IH.
Qed.

Lemma split_go_lower (cur s : string) :
  PyStr.lower <$> PyStr.split_go cur s
  = PyStr.split_go (PyStr.lower cur) (PyStr.lower s).
Proof.
  assert (∀ x, bool_decide (PyStr.lower x = EmptyString)
               = bool_decide (x = EmptyString)) as Hempty.
  { intros x. apply bool_decide_ext, lower_empty. }
  revert cur. induction s as [|c s IH]; intros cur; simpl.
  - rewrite Hempty. by case_bool_decide.
  - rewrite isspace_lower. destruct (PyStr.isspace c).
    + rewrite Hempty. case_bool_decide; csimpl; by rewrite IH.
    + by rewrite IH, lower_append.
Qed.

Lemma split_first_lower (n1 n2 : string) :
  PyStr.lower n1 = PyStr.lower n2 →
  match PyStr.split_first n1, PyStr.split_first n2 with
  | Ok w1, Ok w2 => PyStr.lower w1 = PyStr.lower w2
  | Raise e1, Raise e2 => e1 = e2
  | _, _ => False
  end.
Proof.
  intros Hlow.
  assert (PyStr.lower <$> PyStr.split n1 = PyStr.lower <$> PyStr.split n2) as Hw.
  { unfold PyStr.split. by rewrite !split_go_lower, Hlow. }
  unfold PyStr.split_first.
  destruct (PyStr.split n1), (PyStr.split n2); simplify_eq/=; done.
Qed.

Lemma first_word_match_lower (n1 n2 u1 u2 : string) :
  PyStr.lower n1 = PyStr.lower n2 → PyStr.lower u1 = PyStr.lower u2 →
  first_word_match n1 u1 = first_word_match n2 u2.
Proof.
  intros Hn Hu. unfold first_word_match.
  pose proof (split_first_lower _ _ Hn) as Hw.
  pose proof (split_first_lower _ _ Hu) as Hv.
  destruct (PyStr.split_first n1), (PyStr.split_first n2); simpl; try done;
    [|by subst].
  destruct (PyStr.split_first u1), (PyStr.split_first u2); simpl; try done;
    [|by subst].
  by rewrite Hw, Hv, Hn, Hu.
Qed.

(** X8: on the texts of this model, those of the Latin-1 range, where
    [lower] works character by character and keeps white space apart from
    letters, the matcher ignores case. Two group names that are equal
    once lower-cased are accepted or refused alike, with the same
    strategy or the same exception, by every site; and a site may change
    the case of its display name and of its ISO codes. So the scans of
    one registry for the two names end alike. *)
Theorem matcher_ignores_case h (n1 n2 : string) (comps : list Component) :
  PyStr.lower n1 = PyStr.lower n2 →
  (∀ s1 s2,
     PyStr.lower (en_name s1) = PyStr.lower (en_name s2) →
     PyStr.lower <$> isoCodes s1 = PyStr.lower <$> isoCodes s2 →
     try_site h (Some n1) comps s1 = try_site h (Some n2) comps s2)
  ∧ ∀ sites, scan_sites h (Some n1) comps sites = scan_sites h (Some n2) comps sites.
Proof.
  intros Hn.
  assert (∀ s1 s2,
     PyStr.lower (en_name s1) = PyStr.lower (en_name s2) →
     PyStr.lower <$> isoCodes s1 = PyStr.lower <$> isoCodes s2 →
     try_site h (Some n1) comps s1 = try_site h (Some n2) comps s2) as Htry.
  { intros s1 s2 Hu Hiso. unfold try_site, strategy3, iso_overlap.
    rewrite Hn, Hu, Hiso. by rewrite (first_word_match_lower n1 n2 _ _ Hn Hu). }
  split; [done|]. intros sites.
  induction sites as [|s sites IH]; cbn [scan_sites]; [done|].
  by rewrite (Htry s s), IH.
Qed.

Lemma matcher_ignores_case_witness :
  (∀ s1 s2,
     PyStr.lower (en_name s1) = PyStr.lower (en_name s2) →
     PyStr.lower <$> isoCodes s1 = PyStr.lower <$> isoCodes s2 →
     try_site seed_first (Some "GREAT wall") wall_components s1
     = try_site seed_first (Some "Great Wall") wall_components s2)
  ∧ ∀ sites, scan_sites seed_first (Some "GREAT wall") wall_components sites
             = scan_sites seed_first (Some "Great Wall") wall_components sites.
Proof.
  apply (matcher_ignores_case seed_first "GREAT wall" "Great Wall" wall_components).
  reflexivity.
Defined.

(** The same with an accented capital: [201] and [233] are E with acute. *)
Example matcher_ignores_accented_case :
  try_site seed_first (Some (String "201" "COLE")) []
    {| en_name := String "233" "cole"; idNumber := "9"; isoCodes := [] |}
  = Ok (Some Exact).
Proof. reflexivity. Qed.

(** ** The matcher: what it reads of a group *)

(** X9: of the components of a group the matcher reads the ISO list of
    the first only, and an empty group counts as one whose first
    component has no codes: two groups of one name that agree there are
    scanned alike. *)
Theorem matcher_reads_first_component_only h (n : option string)
    (comps1 comps2 : list Component) (sites : list UnescoSite) :
  from_option iso_codes [] (head comps1) = from_option iso_codes [] (head comps2) →
  scan_sites h n comps1 sites = scan_sites h n comps2 sites.
Proof.
  intros Hhead.
  assert (∀ name s, strategy3 h name comps1 s = strategy3 h name comps2 s) as H3.
  { intros name s. unfold strategy3.
    destruct comps1 as [|c1 ?], comps2 as [|c2 ?]; simpl in Hhead.
    - done.
    - by rewrite <- Hhead.
    - by rewrite Hhead.
    - by rewrite Hhead. }
  induction sites as [|s sites IH]; cbn [scan_sites]; [done|].
  rewrite IH. unfold try_site. destruct n as [name|]; [|done].
  by rewrite H3.
Qed.

Lemma matcher_reads_first_component_only_witness :
  scan_sites seed_first (Some "Great Wall") wall_components [site_smoky; site_longer]
  = scan_sites seed_first (Some "Great Wall") (take 1 wall_components)
      [site_smoky; site_longer].
Proof.
  apply (matcher_reads_first_component_only seed_first (Some "Great Wall")
           wall_components (take 1 wall_components) [site_smoky; site_longer]).
  reflexivity.
Defined.

(** ** The matcher: strategy 1 inside strategy 2 *)

Lemma startswith_refl (s : string) : PyStr.startswith s s = true.
Proof.
  induction s as [|a s IH]; simpl; [done|].
  by rewrite bool_decide_eq_true_2, IH.
Qed.

Lemma str_in_refl (s : string) : PyStr.str_in s s = true.
Proof. destruct s; simpl; by rewrite ?bool_decide_eq_true_2, ?startswith_refl. Qed.

(** X10: a site that strategy 1 accepts passes the test of strategy 2 as
    well, in both directions: the exact test decides which strategy is
    named, never which site is assigned. *)
Theorem exact_match_is_substring_match h (n : string) (comps : list Component)
    (s : UnescoSite) :
  try_site h (Some n) comps s = Ok (Some Exact) →
  PyStr.str_in (PyStr.lower n) (PyStr.lower (en_name s)) = true
  ∧ PyStr.str_in (PyStr.lower (en_name s)) (PyStr.lower n) = true.
Proof.
  unfold try_site. case_bool_decide as Heq.
  - intros _. rewrite Heq. split; apply str_in_refl.
  - destruct (_ || _); [done|].
    by destruct (strategy3 h n comps s) as [[]|].
Qed.

Lemma exact_match_is_substring_match_witness :
  PyStr.str_in (PyStr.lower "GREAT WALL") (PyStr.lower (en_name site_exact)) = true
  ∧ PyStr.str_in (PyStr.lower (en_name site_exact)) (PyStr.lower "GREAT WALL") = true.
Proof.
  apply (exact_match_is_substring_match seed_first "GREAT WALL" wall_components
           site_exact).
  reflexivity.
Defined.

(** ** The matcher: matched and unmatched names *)

(** The scan of the registry finds a site for the group [g]. *)
Definition is_hit (h : HashOrder) (sites : list UnescoSite)
    (g : option string * list Component) : bool :=
  match scan_sites h g.1 g.2 sites with
  | Ok (Some _) => true
  | _ => false
  end.

Lemma match_groups_closed h sites whs m0 u0 m u :
  match_groups h whs sites m0 u0 = Ok (m, u) →
  NoDup (dict_keys m0 ++ dict_keys whs) →
  dict_keys m = dict_keys m0 ++ (filter (λ g, is_hit h sites g = true) whs).*1
  ∧ u = u0 ++ (filter (λ g, is_hit h sites g = false) whs).*1.
Proof.
  revert m0 u0. induction whs as [|[n comps] whs IH]; intros m0 u0; csimpl.
  - intros [= -> ->] _. by rewrite !app_nil_r.
  - intros [hit [Hscan Hrest]]%bind_Ok Hnd.
    assert ((n ∉ dict_keys m0) ∧ NoDup (dict_keys m0 ++ dict_keys whs)) as [Hn Hnd'].
    { apply NoDup_app in Hnd as (Hm0 & Hdisj & [Hnw Hw]%NoDup_cons). split.
      - intros Hin. apply (Hdisj n Hin). left.
      - apply NoDup_app. split_and!; [done | | done].
        intros x Hx ?. apply (Hdisj x Hx). by right. }
    assert (is_hit h sites (n, comps) = bool_decide (is_Some hit)) as Hh.
    { unfold is_hit. simpl. rewrite Hscan. by destruct hit. }
    rewrite !filter_cons, Hh.
    destruct hit as [[t id]|].
    + rewrite decide_True by done. rewrite decide_False by done. csimpl.
      destruct (IH _ _ Hrest) as [-> ->].
      * rewrite dict_keys_set, bool_decide_eq_false_2 by done.
        by rewrite <- app_assoc.
      * rewrite dict_keys_set, bool_decide_eq_false_2 by done.
        by rewrite <- app_assoc.
    + rewrite decide_False by done. rewrite decide_True by done. csimpl.
      destruct (IH _ _ Hrest Hnd') as [-> ->]. by rewrite <- app_assoc.
Qed.

Lemma match_groups_partition h (whs : site_groups) (sites : list UnescoSite)
    (m : list (option string * string)) (u : list (option string)) :
  NoDup (dict_keys whs) →
  create_unesco_mapping_report h whs sites = Ok (m, u) →
  dict_keys m ++ u ≡ₚ dict_keys whs
  ∧ length m + length u = length whs
  ∧ (∀ k, k ∈ dict_keys m → k ∉ u)
  ∧ sublist (dict_keys m) (dict_keys whs)
  ∧ sublist u (dict_keys whs).
Proof.
  intros Hnd Hm.
  destruct (match_groups_closed _ _ _ _ _ _ _ Hm Hnd) as [Hkeys Hu].
  simpl in Hkeys, Hu.
  assert (dict_keys m ++ u ≡ₚ dict_keys whs) as Hperm.
  { rewrite Hkeys, Hu. unfold dict_keys. rewrite <- fmap_app.
    apply fmap_Permutation.
    rewrite (list_filter_iff (λ g, is_hit h sites g = false)
               (λ g, ¬ (is_hit h sites g = true))).
    - apply filter_app_complement.
    - intros g. by destruct (is_hit h sites g). }
  split_and!.
  - done.
  - apply Permutation_length in Hperm. rewrite length_app in Hperm.
    unfold dict_keys in Hperm. by rewrite !length_fmap in Hperm.
  - intros k Hk Hku. rewrite <- Hperm in Hnd.
    apply NoDup_app in Hnd as (_ & Hdisj & _). by apply (Hdisj k).
  - rewrite Hkeys. apply fmap_sublist, sublist_filter.
  - rewrite Hu. apply fmap_sublist, sublist_filter.
Qed.

(** X11: the matcher sorts the group names into two lists. Every name is
    either a key of the mapping or in [unmatched], never both, so the two
    counts that are printed add up to the number of groups; and both
    lists keep the order of the groups. *)
Theorem matcher_partitions_groups h (whs : site_groups) (sites : list UnescoSite)
    (m : list (option string * string)) (u : list (option string)) :
  NoDup (dict_keys whs) →
  create_unesco_mapping_report h whs sites = Ok (m, u) →
  dict_keys m ++ u ≡ₚ dict_keys whs
  ∧ length m + length u = length whs
  ∧ (∀ k, k ∈ dict_keys m → k ∉ u)
  ∧ sublist (dict_keys m) (dict_keys whs)
  ∧ sublist u (dict_keys whs).
Proof. apply match_groups_partition. Qed.

Lemma matcher_partitions_groups_witness :
  dict_keys [(Some "Great Wall", "438"); (Some "The Great Wall", "438")]
    ++ [Some "Surtsey"] ≡ₚ dict_keys two_walls
  ∧ length [(Some "Great Wall", "438"); (Some "The Great Wall", "438")]
    + length [Some "Surtsey"] = length two_walls
  ∧ (∀ k, k ∈ dict_keys [(Some "Great Wall", "438"); (Some "The Great Wall", "438")]
          → k ∉ [Some "Surtsey"])
  ∧ sublist (dict_keys [(Some "Great Wall", "438"); (Some "The Great Wall", "438")])
      (dict_keys two_walls)
  ∧ sublist [Some "Surtsey"] (dict_keys two_walls).
Proof.
  apply (matcher_partitions_groups seed_first two_walls [site_longer; site_smoky]).
  - apply (bool_decide_unpack _). vm_compute. exact I.
  - reflexivity.
Defined.

(** ** The matcher: when it returns and when it raises *)

Lemma try_site_returns h (n : string) comps s :
  PyStr.split n ≠ [] → PyStr.split (en_name s) ≠ [] →
  ∃ t, try_site h (Some n) comps s = Ok t.
Proof.
  intros Hn Hs. unfold try_site. case_bool_decide; [by eexists|].
  destruct (_ || _); [by eexists|].
  assert (∃ b, strategy3 h n comps s = Ok b) as [b ->]; [|by eexists].
  unfold strategy3, first_word_match, PyStr.split_first.
  destruct comps as [|c0 ?]; [by eexists|].
  destruct (nonempty _); [|by eexists].
  destruct (iso_overlap _ _ _); [|by eexists].
  destruct (PyStr.split n); [done|].
  destruct (PyStr.split (en_name s)); [done|]. by eexists.
Qed.

(** X12: the matcher returns when every group name is a text with at
    least one word and every display name of the registry has at least
    one word. *)
Theorem matcher_returns h (whs : site_groups) (sites : list UnescoSite) :
  (∀ n cs, (n, cs) ∈ whs → ∃ s, n = Some s ∧ PyStr.split s ≠ []) →
  (∀ site, site ∈ sites → PyStr.split (en_name site) ≠ []) →
  ∃ m u, create_unesco_mapping_report h whs sites = Ok (m, u).
Proof.
  intros Hnames Hsites.
  assert (∀ n cs, PyStr.split n ≠ [] →
            ∃ hit, scan_sites h (Some n) cs sites = Ok hit) as Hscan.
  { intros n cs Hn. induction sites as [|s sites IH]; cbn [scan_sites]; [by eexists|].
    destruct (try_site_returns h n cs s Hn) as [t ->]; [apply Hsites; left|].
    simpl. destruct t; [by eexists|]. apply IH. intros x ?. apply Hsites. by right. }
  unfold create_unesco_mapping_report.
  generalize (@nil (option string * string)) (@nil (option string)).
  induction whs as [|[n cs] whs IH]; intros m0 u0; simpl; [by eexists _, _|].
  destruct (Hnames n cs) as (s & -> & Hs); [left|].
  destruct (Hscan s cs Hs) as [hit ->]. simpl.
  destruct hit as [[t id]|]; apply IH; intros n' cs' ?; apply (Hnames n' cs');
    by right.
Qed.

Lemma matcher_returns_witness :
  ∃ m u, create_unesco_mapping_report seed_reversed two_walls
           [site_smoky; site_longer] = Ok (m, u).
Proof.
  apply (matcher_returns seed_reversed two_walls [site_smoky; site_longer]).
  - intros n cs [[= -> ->] | [[= -> ->] | [[= -> ->] | ?%elem_of_nil]%elem_of_cons
      ]%elem_of_cons]%elem_of_cons; [| | |done]; eexists; (split; [reflexivity|]);
      by vm_compute.
  - intros site [-> | [-> | ?%elem_of_nil]%elem_of_cons]%elem_of_cons;
      [| |done]; by vm_compute.
Defined.

(** X13: with an empty registry the matcher raises nothing, not even for
    a name that is [None]: the mapping is empty and every name is
    reported unmatched, in the order of the groups. *)
Theorem matcher_empty_registry h (whs : site_groups) :
  create_unesco_mapping_report h whs [] = Ok ([], dict_keys whs).
Proof.
  unfold create_unesco_mapping_report.
  change (dict_keys whs) with ([] ++ dict_keys whs).
  generalize (@nil (option string)).
  induction whs as [|[n cs] whs IH]; intros u0; csimpl.
  - by rewrite app_nil_r.
  - rewrite IH. by rewrite <- app_assoc.
Qed.

(** X14: a group whose name is [None] stops the matcher as soon as the
    registry has a site: if the groups before it are scanned without an
    exception, the matcher raises [AttributeError]. *)
Theorem matcher_none_name_raises h (pre post : site_groups)
    (cs : list Component) (s : UnescoSite) (rest : list UnescoSite) :
  (∀ n cs', (n, cs') ∈ pre → ∃ hit, scan_sites h n cs' (s :: rest) = Ok hit) →
  create_unesco_mapping h (pre ++ (None, cs) :: post) (s :: rest)
  = Raise AttributeError.
Proof.
  intros Hpre. unfold create_unesco_mapping, create_unesco_mapping_report.
  generalize (@nil (option string * string)) (@nil (option string)).
  induction pre as [|[n cs'] pre IH]; intros m0 u0.
  - done.
  - change (((n, cs') :: pre) ++ (None, cs) :: post)
      with ((n, cs') :: (pre ++ (None, cs) :: post)).
    cbn [match_groups]. destruct (Hpre n cs') as [hit ->]; [left|]. simpl.
    destruct hit as [[t id]|]; apply IH; intros n' c' ?; apply (Hpre n' c');
      by right.
Qed.

Lemma matcher_none_name_raises_witness :
  dict_keys nameless_groups = [Some "Surtsey"; None; Some "Great Wall"]
  ∧ create_unesco_mapping seed_first nameless_groups [site_other; site_exact]
    = Raise AttributeError.
Proof.
  split; [reflexivity|].
  apply (matcher_none_name_raises seed_first
           [(Some "Surtsey", surtsey_components)]
           [(Some "Great Wall", take 1 wall_components)]
           (default [] (dict_get None nameless_groups)) site_other [site_exact]).
  intros n cs' [= -> ->]%list_elem_of_singleton. eexists. reflexivity.
Defined.

(** ** The orchestrator: the components by identifier *)

Lemma dict_get_elem {K V} `{EqDecision K} (k : K) (v : V) (d : list (K * V)) :
  dict_get k d = Some v → (k, v) ∈ d.
Proof.
  induction d as [|[k' v'] d IH]; simpl; [done|].
  destruct (decide (k = k')) as [->|Hne].
  - intros [= ->]. left.
  - intros ?. right. by apply IH.
Qed.

Lemma resolve_Some m n id :
  resolve m n = Some id ↔ dict_get n m = Some id ∧ id ≠ EmptyString.
Proof.
  unfold resolve, PyStr.truthy. destruct (dict_get n m) as [id'|].
  - case_bool_decide as Hid; simpl.
    + split; [done|]. intros [[= <-] ?]. done.
    + split; [by intros [= <-] | by intros [[= <-] _]].
  - split; [done | by intros [? _]].
Qed.

Lemma scan_sites_hit_named h n comps sites t id :
  scan_sites h n comps sites = Ok (Some (t, id)) →
  ∃ name s, n = Some name ∧ s ∈ sites ∧ id = idNumber s.
Proof.
  intros (pre & s & post & -> & _ & Hs & ->)%scan_sites_first.
  destruct n as [name|]; [|done]. exists name, s. split_and!; [done | | done].
  apply elem_of_app. right. left.
Qed.

(** X15: every entry of the first output of a run that returns is a
    group of the extractor under the identifier of a site of the
    registry: the identifier is not empty, the mapping assigns it to the
    group's name, which is a text, and the entry lists at least two
    components, all of that name, with the marker in their designation. *)
Theorem output_entries h (i : inputs) (out : list (string * list Component))
    (m : list (option string * string)) :
  process h i = Ok (out, m) →
  ∀ id cs, (id, cs) ∈ out →
    id ≠ EmptyString ∧ 1 < length cs
    ∧ (∃ sites s, unesco_json i = Some sites ∧ s ∈ sites ∧ id = idNumber s)
    ∧ (∃ n, dict_get (Some n) m = Some id
          ∧ ∀ c, c ∈ cs → name c = Some n
                          ∧ PyStr.str_in marker (designation c) = true).
Proof.
  unfold process. intros [whs [Hex Hrest]]%bind_Ok.
  apply bind_Ok in Hrest as [sites [Hsites Hrest]].
  apply bind_Ok in Hrest as [m' [Hm Heq]]. injection Heq as <- <-. intros id cs
    [?%elem_of_nil | (n & Hin & [Hget Hid]%resolve_Some & Hlen)]%reorganize_elem;
    [done|].
  apply create_unesco_mapping_report_eq in Hm as [u Hm].
  destruct (match_groups_get _ _ _ _ _ _ _ _ _ Hm Hget)
    as [? | (comps & t & _ & Hscan)]; [done|].
  apply scan_sites_hit_named in Hscan as (nm & s & -> & Hs & ->).
  destruct (wdpa_csv i) as [rows|]; [|done].
  destruct (extract_rows_invariant _ _ Hex) as [_ Hinv].
  destruct (unesco_json i) as [sites'|]; [|done]. injection Hsites as ->.
  split_and!; [done | done | by exists sites, s |].
  exists nm. split; [done|]. intros c Hc. by apply (Hinv _ _ Hin).
Qed.

Lemma output_entries_witness :
  "438" ≠ EmptyString ∧ 1 < length alias_components
  ∧ (∃ sites s, Some [site_longer; site_other] = Some sites
                ∧ s ∈ sites ∧ "438" = idNumber s)
  ∧ (∃ n, dict_get (Some n) two_walls_mapping = Some "438"
        ∧ ∀ c, c ∈ alias_components →
            name c = Some n ∧ PyStr.str_in marker (designation c) = true).
Proof.
  apply (output_entries seed_first
           {| wdpa_csv := Some [wall_section_1; wall_alias_1; national_park;
                                wall_section_2; surtsey; wall_alias_2];
              unesco_json := Some [site_longer; site_other] |}
           [("438", alias_components)] two_walls_mapping).
  - reflexivity.
  - left.
Defined.

Lemma reorganize_get_keeps whs m acc id :
  is_Some (dict_get id acc) → is_Some (dict_get id (reorganize whs m acc)).
Proof.
  revert acc. induction whs as [|[n cs] whs IH]; intros acc Hacc; simpl; [done|].
  destruct (resolve m n) as [uid|]; [|by apply IH].
  case_bool_decide; [|by apply IH]. apply IH.
  destruct (decide (id = uid)) as [->|Hne].
  - rewrite dict_get_set_eq. by eexists.
  - by rewrite dict_get_set_ne.
Qed.

(** X16: the identifier of every group that resolves and has more than
    one component is a key of the first output, and what stands under it
    is such a group of that identifier, if not always the same one. *)
Theorem output_covers_resolved_groups (whs : site_groups)
    (m : list (option string * string)) (n : option string)
    (cs : list Component) (id : string) :
  (n, cs) ∈ whs → resolve m n = Some id → 1 < length cs →
  ∃ n' cs', dict_get id (reorganize whs m []) = Some cs'
    ∧ (n', cs') ∈ whs ∧ resolve m n' = Some id ∧ 1 < length cs'.
Proof.
  intros (pre & post & ->)%list_elem_of_split Hres Hlen.
  assert (is_Some (dict_get id (reorganize (pre ++ (n, cs) :: post) m [])))
    as [cs' Hget].
  { rewrite reorganize_app. simpl. rewrite Hres, bool_decide_eq_true_2 by done.
    apply reorganize_get_keeps. rewrite dict_get_set_eq. by eexists. }
  destruct (reorganize_elem _ _ _ _ _ (dict_get_elem _ _ _ Hget))
    as [?%elem_of_nil | (n' & ? & ? & ?)]; [done|].
  by exists n', cs'.
Qed.

Lemma output_covers_resolved_groups_witness :
  ∃ n' cs', dict_get "438" (reorganize two_walls two_walls_mapping []) = Some cs'
    ∧ (n', cs') ∈ two_walls ∧ resolve two_walls_mapping n' = Some "438"
    ∧ 1 < length cs'.
Proof.
  apply (output_covers_resolved_groups two_walls two_walls_mapping
           (Some "Great Wall") wall_components "438").
  - left.
  - reflexivity.
  - vm_compute. lia.
Defined.

(** X17: when no other group with more than one component resolves to
    the same identifier, the first output holds a group's own components
    under its identifier. *)
Theorem output_keeps_unshared_group (whs : site_groups)
    (m : list (option string * string)) (n : option string)
    (cs : list Component) (id : string) :
  NoDup (dict_keys whs) →
  (n, cs) ∈ whs → resolve m n = Some id → 1 < length cs →
  (∀ n' cs', (n', cs') ∈ whs → resolve m n' = Some id → 1 < length cs' → n' = n) →
  dict_get id (reorganize whs m []) = Some cs.
Proof.
  intros Hnd (pre & post & ->)%list_elem_of_split Hres Hlen Honly.
  rewrite reorganize_app. simpl. rewrite Hres, bool_decide_eq_true_2 by done.
  rewrite reorganize_get_other; [apply dict_get_set_eq|].
  intros n' cs' Hin' Hres'.
  destruct (decide (1 < length cs')) as [Hlen'|]; [|lia].
  assert (n' = n) as ->.
  { apply (Honly n' cs'); [|done..]. apply elem_of_app. right. by right. }
  unfold dict_keys in Hnd. rewrite fmap_app in Hnd.
  apply NoDup_app in Hnd as (_ & _ & [Hn _]%NoDup_cons).
  exfalso. apply Hn. apply list_elem_of_fmap. by exists (n, cs').
Qed.

Lemma output_keeps_unshared_group_witness :
  dict_get "1" (reorganize two_walls
                  [(Some "Great Wall", "1"); (Some "The Great Wall", "438")] [])
  = Some wall_components.
Proof.
  apply (output_keeps_unshared_group two_walls
           [(Some "Great Wall", "1"); (Some "The Great Wall", "438")]
           (Some "Great Wall") wall_components "1").
  - apply (bool_decide_unpack _). vm_compute. exact I.
  - left.
  - reflexivity.
  - vm_compute. lia.
  - intros n' cs' [[= -> ->] | [[= -> ->] | [[= -> ->] | ?%elem_of_nil]%elem_of_cons
      ]%elem_of_cons]%elem_of_cons; [done | discriminate | discriminate | done].
Defined.

(** ** The orchestrator: the numbers of the summary *)

Lemma reorganize_keys_values whs m id :
  id ∈ dict_keys (reorganize whs m []) → id ∈ m.*2.
Proof.
  intros ([id' cs] & -> & Hin)%list_elem_of_fmap. simpl.
  apply reorganize_elem in Hin as [?%elem_of_nil | (n & _ & [Hget _]%resolve_Some & _)];
    [done|].
  apply list_elem_of_fmap. exists (n, id'). split; [done|]. by apply dict_get_elem.
Qed.

Lemma reorganize_length whs m acc :
  length (reorganize whs m acc)
  ≤ length acc + length (filter (λ g, 1 < length g.2) whs).
Proof.
  revert acc. induction whs as [|[n cs] whs IH]; intros acc; simpl; [lia|].
  rewrite filter_cons. simpl.
  assert (∀ uid, length (dict_set uid cs acc) ≤ S (length acc)) as Hset.
  { intros uid. clear. induction acc as [|[k v] acc IH]; simpl; [done|].
    destruct (decide (uid = k)); simpl; lia. }
  destruct (resolve m n) as [uid|].
  - case_bool_decide.
    + rewrite decide_True by done. etrans; [apply IH|]. specialize (Hset uid).
      simpl. lia.
    + rewrite decide_False by done. apply IH.
  - etrans; [apply IH|]. destruct (decide _); simpl; lia.
Qed.

(** X18: the numbers of the summary are ordered. The first output has no
    more entries than the mapping, and no more than there are groups with
    several components; the mapping has no more entries than there are
    groups. *)
Theorem summary_numbers_ordered h (whs : site_groups) (sites : list UnescoSite)
    (m : list (option string * string)) :
  NoDup (dict_keys whs) → create_unesco_mapping h whs sites = Ok m →
  length (reorganize whs m []) ≤ length m
  ∧ length (reorganize whs m []) ≤ length (filter (λ g, 1 < length g.2) whs)
  ∧ length m ≤ length whs.
Proof.
  intros Hnd [u Hm]%create_unesco_mapping_report_eq. split_and!.
  - rewrite <- (length_fmap fst (reorganize whs m [])), <- (length_fmap snd m).
    apply submseteq_length, NoDup_submseteq.
    + apply (reorganize_NoDup whs m []). constructor.
    + apply reorganize_keys_values.
  - apply (reorganize_length whs m []).
  - destruct (match_groups_partition _ _ _ _ _ Hnd Hm) as (_ & Hlen & _). lia.
Qed.

Lemma summary_numbers_ordered_witness :
  length (reorganize two_walls two_walls_mapping []) ≤ length two_walls_mapping
  ∧ length (reorganize two_walls two_walls_mapping [])
    ≤ length (filter (λ g, 1 < length g.2) two_walls)
  ∧ length two_walls_mapping ≤ length two_walls.
Proof.
  apply (summary_numbers_ordered seed_first two_walls [site_longer; site_other]).
  - apply (bool_decide_unpack _). vm_compute. exact I.
  - reflexivity.
Defined.

(** ** The extractor: a blank area, and rows in two parts *)

Lemma float_lstrip_spaces (l : list ascii) :
  Forall (λ c, PyFloat.c_isspace c = true) l → PyFloat.lstrip l = [].
Proof. induction 1 as [|c l Hc _ IH]; simpl; [done|]. by rewrite Hc. Qed.

(** X19: an area cell that is not empty but holds white space only is
    not replaced by the default: [float] raises [ValueError] on it. *)
Theorem blank_area_raises (r : row) (s : string) :
  r !! "REP_AREA" = Some (Some s) → s ≠ EmptyString →
  Forall (λ c, PyFloat.c_isspace c = true) (String.list_ascii_of_string s) →
  area_of r = Raise ValueError
  ∧ ∀ desig, make_component r desig = Raise ValueError.
Proof.
  intros Hcell Hs Hblank.
  assert (area_of r = Raise ValueError) as Harea.
  { unfold area_of, PyStr.truthy, PyFloat.of_str, PyFloat.parse, PyFloat.strip.
    rewrite Hcell, bool_decide_eq_false_2 by done. simpl.
    by rewrite (float_lstrip_spaces _ Hblank). }
  split; [done|]. intros desig. unfold make_component. by rewrite Harea.
Qed.

Lemma blank_area_raises_witness :
  area_of blank_area = Raise ValueError
  ∧ ∀ desig, make_component blank_area desig = Raise ValueError.
Proof.
  apply (blank_area_raises blank_area "  ").
  - reflexivity.
  - discriminate.
  - repeat constructor.
Defined.

(** X20: the loop can be run on the rows in two parts: the second part
    starts from the groups that the first part leaves, and an exception
    of the first part is the exception of the whole. *)
Theorem extract_rows_app (rows1 rows2 : list row) (whs0 : site_groups) :
  extract_rows (rows1 ++ rows2) whs0
  = extract_rows rows1 whs0 ≫= extract_rows rows2.
Proof.
  revert whs0. induction rows1 as [|r rows1 IH]; intros whs0; [done|].
  change ((r :: rows1) ++ rows2) with (r :: (rows1 ++ rows2)).
  rewrite !extract_rows_cons. destruct (row_component r) as [oc|e]; simpl; [|done].
  apply IH.
Qed.

(** ** The orchestrator: groups of one component *)

(** X21: the groups with a single component have no part in the first
    output: it is the same with them and without them. *)
Theorem output_ignores_single_groups (whs : site_groups)
    (m : list (option string * string)) (acc : list (string * list Component)) :
  reorganize (filter (λ g, 1 < length g.2) whs) m acc = reorganize whs m acc.
Proof.
  revert acc. induction whs as [|[n cs] whs IH]; intros acc; [done|].
  rewrite filter_cons. simpl. destruct (decide (1 < length cs)) as [Hlen|Hlen].
  - simpl. destruct (resolve m n); [|done].
    by rewrite bool_decide_eq_true_2.
  - rewrite IH. destruct (resolve m n); [|done].
    by rewrite bool_decide_eq_false_2.
Qed.

(** ** The orchestrator: what is written *)

(** X22: a run that succeeds writes both files: the first holds the
    groups re-keyed by identifier, the second the whole mapping, also the
    names whose group has one component. A run that does not exit with
    [0] writes neither file. *)
Theorem main_outputs (h : HashOrder)
    (dump_components : list (string * list Component) → string)
    (dump_mapping : list (option string * string) → string) (i : inputs) :
  (∀ rows sites whs m,
     wdpa_csv i = Some rows → unesco_json i = Some sites →
     extract_whs_components (Some rows) = Ok whs →
     create_unesco_mapping h whs sites = Ok m →
     components_json (main h dump_components dump_mapping i)
     = Some (dump_components (reorganize whs m []))
     ∧ mapping_json (main h dump_components dump_mapping i)
       = Some (dump_mapping m))
  ∧ (exit_code (main h dump_components dump_mapping i) ≠ 0%Z →
     components_json (main h dump_components dump_mapping i) = None
     ∧ mapping_json (main h dump_components dump_mapping i) = None).
Proof.
  destruct i as [csv json]. unfold main, process. split.
  - cbn [wdpa_csv unesco_json]. intros rows sites whs m -> -> Hex Hm.
    rewrite Hex. cbn [mbind result_bind load_unesco_sites]. by rewrite Hm.
  - simpl. destruct csv as [rows|]; [|done]. simpl.
    destruct (extract_rows rows []) as [whs|e]; simpl; [|done].
    destruct json as [sites|]; simpl; [|done].
    by destruct (create_unesco_mapping h whs sites).
Qed.
